(** * Bivariate Archimedean copulas (Clayton, Gumbel, Independence)

    A shallow embedding of [copulas/bivariate/clayton.py],
    [copulas/bivariate/gumbel.py] and [copulas/bivariate/independence.py].

    Numbers.  numpy float64 values are modelled as exact real numbers
    extended with the IEEE special values +inf, -inf and NaN (type [num]);
    the operations follow the IEEE/C99 rules for the special values
    ([pow], [log], [exp], division by zero) and compute exactly on finite
    values (rounding is not modelled, nor is the sign of zero).  Input
    samples are finite floats and are modelled as [R]. *)

From Stdlib Require Import Reals Lra Lia List Bool ZArith.
Import ListNotations.
Local Open Scope R_scope.

(** ** Extended reals standing for float64 values *)

Inductive num : Type :=
| Fin (r : R)
| PInf
| NInf
| NaN.

Definition Reqb (a b : R) : bool := if Req_EM_T a b then true else false.
Definition Rltb (a b : R) : bool := if Rlt_dec a b then true else false.

(** [b] is an integer: [up b] is the least integer strictly above [b]. *)
Definition is_int (b : R) : bool := Reqb (IZR (up b) - 1) b.
Definition int_of (b : R) : Z := (up b - 1)%Z.

Definition nneg (x : num) : num :=
  match x with
  | Fin a => Fin (- a)
  | PInf => NInf
  | NInf => PInf
  | NaN => NaN
  end.

Definition nadd (x y : num) : num :=
  match x, y with
  | Fin a, Fin b => Fin (a + b)
  | Fin _, PInf | PInf, Fin _ | PInf, PInf => PInf
  | Fin _, NInf | NInf, Fin _ | NInf, NInf => NInf
  | PInf, NInf | NInf, PInf => NaN
  | NaN, _ | _, NaN => NaN
  end.

Definition nsub (x y : num) : num := nadd x (nneg y).

(** Infinity times a finite value [a]: the sign of [a] decides, [0 * inf]
    is NaN. *)
Definition inf_times (a : R) (pos : bool) : num :=
  if Rltb 0 a then (if pos then PInf else NInf)
  else if Rltb a 0 then (if pos then NInf else PInf)
  else NaN.

Definition nmul (x y : num) : num :=
  match x, y with
  | Fin a, Fin b => Fin (a * b)
  | Fin a, PInf | PInf, Fin a => inf_times a true
  | Fin a, NInf | NInf, Fin a => inf_times a false
  | PInf, PInf | NInf, NInf => PInf
  | PInf, NInf | NInf, PInf => NInf
  | NaN, _ | _, NaN => NaN
  end.

Definition ndiv (x y : num) : num :=
  match x, y with
  | Fin a, Fin b =>
      if Reqb b 0 then inf_times a true else Fin (a / b)
  | Fin _, (PInf | NInf) => Fin 0
  | PInf, Fin b => if Rltb b 0 then NInf else PInf
  | NInf, Fin b => if Rltb b 0 then PInf else NInf
  | (PInf | NInf), (PInf | NInf) => NaN
  | NaN, _ | _, NaN => NaN
  end.

(** [np.log] *)
Definition nlog (x : num) : num :=
  match x with
  | Fin a => if Rltb 0 a then Fin (ln a) else if Reqb a 0 then NInf else NaN
  | PInf => PInf
  | NInf | NaN => NaN
  end.

(** [np.exp] *)
Definition nexp (x : num) : num :=
  match x with
  | Fin a => Fin (exp a)
  | PInf => PInf
  | NInf => Fin 0
  | NaN => NaN
  end.

Definition is_zero (x : num) : bool :=
  match x with Fin a => Reqb a 0 | _ => false end.
Definition is_one (x : num) : bool :=
  match x with Fin a => Reqb a 1 | _ => false end.

(** [np.power], following C99 [pow]. *)
Definition npow (x y : num) : num :=
  if is_zero y then Fin 1 else
  if is_one x then Fin 1 else
  match x, y with
  | NaN, _ | _, NaN => NaN
  | Fin a, Fin b =>
      if Rltb 0 a then Fin (Rpower a b)
      else if Reqb a 0 then (if Rltb 0 b then Fin 0 else PInf)
      else if is_int b then Fin (powerRZ a (int_of b))
      else NaN
  | Fin a, PInf =>
      if Rltb (Rabs a) 1 then Fin 0
      else if Reqb (Rabs a) 1 then Fin 1 else PInf
  | Fin a, NInf =>
      if Rltb (Rabs a) 1 then PInf
      else if Reqb (Rabs a) 1 then Fin 1 else Fin 0
  | PInf, Fin b => if Rltb b 0 then Fin 0 else PInf
  | PInf, PInf => PInf
  | PInf, NInf => Fin 0
  | NInf, Fin b =>
      if Rltb b 0 then Fin 0
      else if is_int b && Z.odd (int_of b) then NInf else PInf
  | NInf, PInf => PInf
  | NInf, NInf => Fin 0
  end.

(** numpy comparison [x > y] (false as soon as a NaN is involved). *)
Definition ngt (x y : num) : bool :=
  match x, y with
  | Fin a, Fin b => Rltb b a
  | PInf, (Fin _ | NInf) => true
  | Fin _, NInf => true
  | _, _ => false
  end.

(** Python's builtin [max(x, 0)]: keeps [x] unless [0 > x]. *)
Definition py_max0 (x : num) : num := if ngt (Fin 0) x then Fin 0 else x.

(** ** Errors and the evaluation monad *)

Inductive error : Type :=
| UnfittedModelError
| ShapeError
| ValueError.

Inductive result (A : Type) : Type :=
| Ok (a : A)
| Err (e : error).
Arguments Ok {A} a.
Arguments Err {A} e.

Definition bind {A B} (m : result A) (k : A -> result B) : result B :=
  match m with
  | Ok a => k a
  | Err e => Err e
  end.

Notation "'let*' x ':=' m 'in' k" := (bind m (fun x => k))
  (at level 200, x binder, m at level 100, right associativity).

(** ** Instance state of a copula *)

Record copula := mk_copula {
  theta : R;
  tau : R;
  fitted : bool
}.

(** Modelled from the spec: [Bivariate.check_fit] of the base class
    (not in the sources), which fails with [UnfittedModelError] when
    [fitted] is false. *)
Definition check_fit (s : copula) : result unit :=
  if fitted s then Ok tt else Err UnfittedModelError.

(** A sample matrix is a list of rows. *)
Definition matrix := list (list R).

(** Modelled from the spec: [Bivariate.split_matrix] of the base class
    (not in the sources): splits an (n,2) matrix into its columns [U] and
    [V], and fails with [ShapeError] when a row is not of width 2. *)
Definition split_matrix (X : matrix) : result (list R * list R) :=
  if forallb (fun row => Nat.eqb (length row) 2) X
  then Ok (map (fun row => nth 0 row 0) X, map (fun row => nth 1 row 0) X)
  else Err ShapeError.

(** The (n,2) matrix whose rows are the given pairs. *)
Definition mat_of_pairs (P : list (R * R)) : matrix :=
  map (fun '(u, v) => [u; v]) P.

(** numpy broadcasting of two one-dimensional arrays. *)
Definition broadcast2 {A B} (a0 : A) (b0 : B) (xs : list A) (ys : list B)
  : result (list (A * B)) :=
  if Nat.eqb (length xs) (length ys) then Ok (combine xs ys)
  else if Nat.eqb (length xs) 1 then Ok (map (fun y => (nth 0 xs a0, y)) ys)
  else if Nat.eqb (length ys) 1 then Ok (map (fun x => (x, nth 0 ys b0)) xs)
  else Err ValueError.

(** ** Clayton ([clayton.py]) *)
Module Clayton.

Definition generator (s : copula) (t : list R) : result (list num) :=
  let* _ := check_fit s in
  Ok (map (fun t =>
    nmul (ndiv (Fin 1) (Fin (theta s)))
         (nsub (npow (Fin t) (Fin (- theta s))) (Fin 1))) t).

Definition probability_density (s : copula) (X : matrix) : result (list num) :=
  let* _ := check_fit s in
  let* '(U, V) := split_matrix X in
  let th := theta s in
  Ok (map (fun '(u, v) =>
    let a := nmul (Fin (th + 1)) (npow (nmul (Fin u) (Fin v)) (Fin (- (th + 1)))) in
    let b := nsub (nadd (npow (Fin u) (Fin (- th))) (npow (Fin v) (Fin (- th)))) (Fin 1) in
    let c := ndiv (Fin (- (2 * th + 1))) (Fin th) in
    nmul a (npow b c)) (combine U V)).

(** One entry of the list comprehension [cdfs]. *)
Definition cdf_entry (th u v : R) : num :=
  if Rltb 0 u && Rltb 0 v then
    npow (nsub (nadd (npow (Fin u) (Fin (- th))) (npow (Fin v) (Fin (- th)))) (Fin 1))
         (ndiv (Fin (-1)) (Fin th))
  else Fin 0.

Definition cumulative_distribution (s : copula) (X : matrix) : result (list num) :=
  let* _ := check_fit s in
  let* '(U, V) := split_matrix X in
  if forallb (fun v => Reqb v 0) V || forallb (fun u => Reqb u 0) U then
    Ok (repeat (Fin 0) (length V))
  else
    let cdfs := map (fun '(u, v) => cdf_entry (theta s) u v) (combine U V) in
    Ok (map py_max0 cdfs).

Definition percent_point (s : copula) (y V : list R) : result (list num) :=
  let* _ := check_fit s in
  let th := theta s in
  if Rltb th 0 then Ok (map Fin V)
  else
    let* yv := broadcast2 0 0 y V in
    Ok (map (fun '(y, v) =>
      let a := npow (Fin y) (ndiv (Fin th) (Fin (-1 - th))) in
      let b := npow (Fin v) (Fin th) in
      npow (ndiv (nsub (nadd a b) (Fin 1)) b) (ndiv (Fin (-1)) (Fin th))) yv).

(** One entry of [np.multiply(A, h) - y]. *)
Definition pd_entry (th u v y : R) : num :=
  let A := npow (Fin v) (Fin (- th - 1)) in
  let B := nsub (nadd (npow (Fin v) (Fin (- th))) (npow (Fin u) (Fin (- th)))) (Fin 1) in
  let h := npow B (ndiv (Fin (-1 - th)) (Fin th)) in
  nsub (nmul A h) (Fin y).

Definition partial_derivative (s : copula) (X : matrix) (y : R) : result (list num) :=
  let* _ := check_fit s in
  let* '(U, V) := split_matrix X in
  if Reqb (theta s) 0 then Ok (map Fin V)
  else Ok (map (fun '(u, v) => pd_entry (theta s) u v y) (combine U V)).

Definition compute_theta (s : copula) : num :=
  if Reqb (tau s) 1 then Fin 10000
  else ndiv (Fin (2 * tau s)) (Fin (1 - tau s)).

End Clayton.

(** Modelled from the spec: the constant [copulas.EPSILON] (not in the
    sources), the lower bound of the bounded search, "e.g. 1e-6". *)
Definition EPSILON : R := / 1000000.

(** ** Gumbel ([gumbel.py]) *)
Module Gumbel.

Definition generator (s : copula) (t : list R) : result (list num) :=
  Ok (map (fun t => npow (nneg (nlog (Fin t))) (Fin (theta s))) t).

(** One entry of the general branch of [cumulative_distribution]. *)
Definition cdf_entry (th u v : R) : num :=
  let h := nadd (npow (nneg (nlog (Fin u))) (Fin th))
                (npow (nneg (nlog (Fin v))) (Fin th)) in
  let h := nneg (npow h (ndiv (Fin 1) (Fin th))) in
  nexp h.

Definition cumulative_distribution (s : copula) (X : matrix) : result (list num) :=
  let* _ := check_fit s in
  let* '(U, V) := split_matrix X in
  if Reqb (theta s) 1 then Ok (map (fun '(u, v) => nmul (Fin u) (Fin v)) (combine U V))
  else Ok (map (fun '(u, v) => cdf_entry (theta s) u v) (combine U V)).

Definition probability_density (s : copula) (X : matrix) : result (list num) :=
  let* _ := check_fit s in
  let* '(U, V) := split_matrix X in
  let th := theta s in
  if Reqb th 1 then Ok (map (fun '(u, v) => nmul (Fin u) (Fin v)) (combine U V))
  else
    let* C := cumulative_distribution s X in
    Ok (map (fun '(c, (u, v)) =>
      let a := npow (nmul (Fin u) (Fin v)) (Fin (-1)) in
      let tmp := nadd (npow (nneg (nlog (Fin u))) (Fin th))
                      (npow (nneg (nlog (Fin v))) (Fin th)) in
      let b := npow tmp (nadd (Fin (-2)) (ndiv (Fin 2) (Fin th))) in
      let c' := npow (nmul (nlog (Fin u)) (nlog (Fin v))) (Fin (th - 1)) in
      let d := nadd (Fin 1) (nmul (Fin (th - 1)) (npow tmp (ndiv (Fin (-1)) (Fin th)))) in
      nmul (nmul (nmul (nmul c a) b) c') d) (combine C (combine U V))).

Definition partial_derivative (s : copula) (X : matrix) (y : R) : result (list num) :=
  let* _ := check_fit s in
  let* '(U, V) := split_matrix X in
  let th := theta s in
  if Reqb th 1 then Ok (map Fin V)
  else
    let* p1 := cumulative_distribution s X in
    Ok (map (fun '(c, (u, v)) =>
      let t1 := npow (nneg (nlog (Fin u))) (Fin th) in
      let t2 := npow (nneg (nlog (Fin v))) (Fin th) in
      let p2 := npow (nadd t1 t2) (nadd (Fin (-1)) (ndiv (Fin 1) (Fin th))) in
      let p3 := npow (nneg (nlog (Fin v))) (Fin (th - 1)) in
      nsub (ndiv (nmul (nmul c p2) p3) (Fin v)) (Fin y)) (combine p1 (combine U V))).

(** Modelled from the spec: [Bivariate.partial_derivative_scalar] of the
    base class (not in the sources), the residual of [partial_derivative]
    at the single pair [(u, v)] with offset [y], whose absolute value the
    bounded search minimises. *)
Definition partial_derivative_scalar (s : copula) (u v y : R) : num :=
  match partial_derivative s [[u; v]] y with
  | Ok [Fin r] => Fin (Rabs r)
  | Ok [PInf] | Ok [NInf] => PInf
  | _ => NaN
  end.

(** [percent_point] takes [scipy.optimize.fminbound], a bounded scalar
    minimiser of an external library, as its parameter [fminbound]. *)
Definition percent_point (fminbound : (R -> num) -> R -> R -> num)
  (s : copula) (y V : list R) : result (list num) :=
  let* _ := check_fit s in
  if Reqb (theta s) 1 then Ok (map Fin y)
  else
    Ok (map (fun '(y', v) =>
      fminbound (fun u => partial_derivative_scalar s u v y') EPSILON 1)
      (combine y V)).

Definition compute_theta (s : copula) : num :=
  ndiv (Fin 1) (Fin (1 - tau s)).

End Gumbel.

(** ** Independence ([independence.py]) *)
Module Independence.

(** [fit] is [pass]: the instance is returned as it was. *)
Definition fit (s : copula) (X : matrix) : result copula := Ok s.

Definition generator (s : copula) (t : list R) : result (list num) :=
  Ok (map (fun t => nlog (Fin t)) t).

(** [scipy.stats.multivariate_normal.pdf(X, cov=np.identity(2))]: the
    standard bivariate normal density of each row. *)
Definition probability_density (s : copula) (X : matrix) : result (list num) :=
  if forallb (fun row => Nat.eqb (length row) 2) X then
    Ok (map (fun row =>
      let u := nth 0 row 0 in let v := nth 1 row 0 in
      Fin (exp (- (u * u + v * v) / 2) / (2 * PI))) X)
  else Err ValueError.

Definition cumulative_distribution (s : copula) (X : matrix) : result (list num) :=
  let* '(U, V) := split_matrix X in
  Ok (map (fun '(u, v) => nmul (Fin u) (Fin v)) (combine U V)).

(** [partial_derivative(X)] returns the matrix [X] itself (and takes no
    offset). *)
Definition partial_derivative (s : copula) (X : matrix) : result matrix := Ok X.

Definition percent_point (s : copula) (y V : list R) : result (list R) :=
  let* _ := check_fit s in
  Ok V.

End Independence.

(** ** The families as one closed variant *)

Inductive family := FClayton | FGumbel | FIndependence.

Definition cumulative_distribution (f : family) : copula -> matrix -> result (list num) :=
  match f with
  | FClayton => Clayton.cumulative_distribution
  | FGumbel => Gumbel.cumulative_distribution
  | FIndependence => Independence.cumulative_distribution
  end.

(** [theta_interval] and [invalid_thetas] of each family; Independence
    has no parameter. *)
Definition theta_valid (f : family) (th : R) : Prop :=
  match f with
  | FClayton => -1 <= th /\ th <> 0
  | FGumbel => 1 <= th
  | FIndependence => True
  end.

(** Swapping the two columns of a sample matrix. *)
Definition swap_pairs (P : list (R * R)) : list (R * R) :=
  map (fun '(u, v) => (v, u)) P.

(** * Properties *)

(** ** Decisions on reals and the [num] operations *)

Lemma Reqb_true a b : a = b -> Reqb a b = true.
Proof. intros ->. unfold Reqb. destruct (Req_EM_T b b); congruence. Qed.

Lemma Reqb_false a b : a <> b -> Reqb a b = false.
Proof. intros H. unfold Reqb. destruct (Req_EM_T a b); congruence. Qed.

Lemma Rltb_true a b : a < b -> Rltb a b = true.
Proof. intros H. unfold Rltb. destruct (Rlt_dec a b); [reflexivity | contradiction]. Qed.

Lemma Rltb_false a b : ~ a < b -> Rltb a b = false.
Proof. intros H. unfold Rltb. destruct (Rlt_dec a b); [contradiction | reflexivity]. Qed.

Lemma ndiv_fin a b : b <> 0 -> ndiv (Fin a) (Fin b) = Fin (a / b).
Proof. intros H. simpl. now rewrite Reqb_false. Qed.

Lemma npow_pos a b : 0 < a -> npow (Fin a) (Fin b) = Fin (Rpower a b).
Proof.
  intros Ha. unfold npow, is_zero, is_one.
  destruct (Reqb b 0) eqn:E0.
  { unfold Reqb in E0. destruct (Req_EM_T b 0) as [->|]; [|discriminate].
    now rewrite Rpower_O. }
  destruct (Reqb a 1) eqn:E1.
  { unfold Reqb in E1. destruct (Req_EM_T a 1) as [->|]; [|discriminate].
    unfold Rpower. now rewrite ln_1, Rmult_0_r, exp_0. }
  now rewrite Rltb_true.
Qed.

(** [npow] at a zero base and a positive exponent. *)
Lemma npow_zero_pos b : 0 < b -> npow (Fin 0) (Fin b) = Fin 0.
Proof.
  intros Hb. unfold npow, is_zero, is_one.
  rewrite (Reqb_false b 0), (Reqb_false 0 1) by lra.
  rewrite Rltb_false by lra. rewrite Reqb_true by reflexivity.
  now rewrite Rltb_true.
Qed.

(** [npow] at +inf and a positive exponent. *)
Lemma npow_pinf_pos b : 0 < b -> npow PInf (Fin b) = PInf.
Proof.
  intros Hb. unfold npow, is_zero, is_one.
  rewrite (Reqb_false b 0) by lra. now rewrite Rltb_false by lra.
Qed.

Lemma up_IZR z : up (IZR z) = (z + 1)%Z.
Proof.
  symmetry. apply tech_up; rewrite plus_IZR; lra.
Qed.

(** ** Sample matrices *)

Lemma split_pairs P :
  split_matrix (mat_of_pairs P) = Ok (map fst P, map snd P).
Proof.
  unfold split_matrix, mat_of_pairs.
  replace (forallb _ _) with true.
  - f_equal. f_equal; rewrite map_map; apply map_ext; now intros [u v].
  - induction P as [|[u v] P IH]; simpl; auto.
Qed.

Lemma combine_fst_snd {A B} (P : list (A * B)) :
  combine (map fst P) (map snd P) = P.
Proof. induction P as [|[a b] P IH]; simpl; congruence. Qed.

Lemma Forall2_map_r {A B} (Rel : A -> B -> Prop) (g : A -> B) l :
  Forall (fun x => Rel x (g x)) l -> Forall2 Rel l (map g l).
Proof. induction 1; simpl; constructor; auto. Qed.

(** Concrete states used by the witnesses and counterexamples. *)
Definition unfitted : copula := mk_copula 0 0 false.
Definition gumbel_indep : copula := mk_copula 1 0 true.

(** A placeholder bounded minimiser, to run [Gumbel.percent_point] on
    concrete inputs. *)
Definition some_minimiser (f : R -> num) (lo hi : R) : num := Fin lo.

(** ** C1: the fit guard *)

(** Claim C1 (as amended): when [fitted] is false, every evaluation
    operation of Clayton (generator, probability_density,
    cumulative_distribution, percent_point, partial_derivative), the
    probability_density, cumulative_distribution, percent_point and
    partial_derivative of Gumbel, and Independence.percent_point fail with
    UnfittedModelError before any formula is evaluated; Independence's
    cumulative_distribution, probability_density, partial_derivative and
    generator have no guard and return the same as on a fitted instance. *)
Theorem unfitted_guard (fminbound : (R -> num) -> R -> R -> num)
  (s : copula) (t y V : list R) (X : matrix) (off : R) :
  fitted s = false ->
  Clayton.generator s t = Err UnfittedModelError /\
  Clayton.probability_density s X = Err UnfittedModelError /\
  Clayton.cumulative_distribution s X = Err UnfittedModelError /\
  Clayton.percent_point s y V = Err UnfittedModelError /\
  Clayton.partial_derivative s X off = Err UnfittedModelError /\
  Gumbel.probability_density s X = Err UnfittedModelError /\
  Gumbel.cumulative_distribution s X = Err UnfittedModelError /\
  Gumbel.percent_point fminbound s y V = Err UnfittedModelError /\
  Gumbel.partial_derivative s X off = Err UnfittedModelError /\
  Independence.percent_point s y V = Err UnfittedModelError /\
  (let s' := mk_copula (theta s) (tau s) true in
   Independence.cumulative_distribution s X = Independence.cumulative_distribution s' X /\
   Independence.probability_density s X = Independence.probability_density s' X /\
   Independence.partial_derivative s X = Independence.partial_derivative s' X /\
   Independence.generator s t = Independence.generator s' t).
Proof.
  intros Hf.
  unfold Clayton.generator, Clayton.probability_density, Clayton.cumulative_distribution,
    Clayton.percent_point, Clayton.partial_derivative, Gumbel.probability_density,
    Gumbel.cumulative_distribution, Gumbel.percent_point, Gumbel.partial_derivative,
    Independence.percent_point, check_fit.
  rewrite Hf. simpl. repeat split.
Qed.

Lemma unfitted_guard_witness :
  fitted unfitted = false /\
  Clayton.cumulative_distribution unfitted [[1; 1]] = Err UnfittedModelError.
Proof.
  split; [reflexivity|].
  apply (unfitted_guard some_minimiser unfitted [] [] [] [[1; 1]] 0); reflexivity.
Defined.

(** Claim C1 as stated fails: Independence.cumulative_distribution of an
    unfitted instance evaluates the product instead of failing. *)
Lemma unfitted_guard_counterexample :
  fitted unfitted = false /\
  Independence.cumulative_distribution unfitted [[3/10; 2/5]] = Ok [Fin (3/10 * (2/5))] /\
  Independence.cumulative_distribution unfitted [[3/10; 2/5]] <> Err UnfittedModelError.
Proof. repeat split. discriminate. Qed.

(** ** C3, C4: Gumbel at theta = 1 *)

(** Claim C3: for Gumbel fitted with theta = 1, cumulative_distribution
    of an (n,2) matrix is the elementwise product u*v, and percent_point(y, V)
    is y, whatever the bounded minimiser. *)
Theorem gumbel_theta1_independence (fminbound : (R -> num) -> R -> R -> num)
  (s : copula) (P : list (R * R)) (y V : list R) :
  fitted s = true -> theta s = 1 ->
  Gumbel.cumulative_distribution s (mat_of_pairs P) = Ok (map (fun '(u, v) => Fin (u * v)) P) /\
  Gumbel.percent_point fminbound s y V = Ok (map Fin y).
Proof.
  intros Hf Ht.
  unfold Gumbel.cumulative_distribution, Gumbel.percent_point, check_fit.
  rewrite Hf, Ht, split_pairs. simpl.
  rewrite Reqb_true by reflexivity. rewrite combine_fst_snd.
  split; reflexivity.
Qed.

Lemma gumbel_theta1_independence_witness :
  Gumbel.cumulative_distribution gumbel_indep (mat_of_pairs [(3/10, 2/5)]) = Ok [Fin (3/10 * (2/5))] /\
  Gumbel.percent_point some_minimiser gumbel_indep [1/2] [1/4] = Ok [Fin (1/2)].
Proof.
  exact (gumbel_theta1_independence some_minimiser gumbel_indep [(3/10, 2/5)] [1/2] [1/4]
           eq_refl eq_refl).
Defined.

(** Claim C4 (code defect): for Gumbel fitted with theta = 1, the branch
    [return V] of partial_derivative drops the offset that the other branch
    subtracts ([... - y]). At X = [[0.3, 0.4]] and y = 0.5 the code returns
    [0.4], where V - y is [-0.1]. *)
Theorem gumbel_theta1_offset_dropped :
  Gumbel.partial_derivative gumbel_indep [[3/10; 2/5]] (1/2) = Ok [Fin (2/5)] /\
  Gumbel.partial_derivative gumbel_indep [[3/10; 2/5]] (1/2) <> Ok [Fin (2/5 - 1/2)].
Proof.
  unfold Gumbel.partial_derivative, check_fit. simpl.
  rewrite Reqb_true by reflexivity. simpl.
  split; [reflexivity|]. intros H. injection H. lra.
Qed.

(** ** C6, C10: theta from tau *)

(** Claim C6: Clayton.compute_theta returns the finite sentinel 10000 at
    tau = 1 and 2*tau/(1-tau) for every tau < 1. *)
Theorem clayton_compute_theta (s : copula) :
  (tau s = 1 -> Clayton.compute_theta s = Fin 10000) /\
  (tau s < 1 -> Clayton.compute_theta s = Fin (2 * tau s / (1 - tau s))).
Proof.
  unfold Clayton.compute_theta. split; intros H.
  - now rewrite Reqb_true.
  - rewrite Reqb_false by lra. apply ndiv_fin. lra.
Qed.

Lemma clayton_compute_theta_witness :
  Clayton.compute_theta (mk_copula 0 1 false) = Fin 10000 /\
  Clayton.compute_theta (mk_copula 0 (1/2) false) = Fin (2 * (1/2) / (1 - 1/2)).
Proof.
  split.
  - apply (proj1 (clayton_compute_theta (mk_copula 0 1 false))). reflexivity.
  - apply (proj2 (clayton_compute_theta (mk_copula 0 (1/2) false))). simpl. lra.
Defined.

(** Claim C10: Gumbel.compute_theta is the plain division 1/(1-tau), with
    no special case: it is the finite 1/(1-tau) for every tau <> 1 and at
    tau = 1 the division by zero goes through (+inf, not a finite value). *)
Theorem gumbel_compute_theta (s : copula) :
  Gumbel.compute_theta s = ndiv (Fin 1) (Fin (1 - tau s)) /\
  (tau s <> 1 -> Gumbel.compute_theta s = Fin (1 / (1 - tau s))) /\
  (tau s = 1 -> Gumbel.compute_theta s = PInf /\ forall r, Gumbel.compute_theta s <> Fin r).
Proof.
  unfold Gumbel.compute_theta. split; [reflexivity|]. split; intros H.
  - apply ndiv_fin. lra.
  - rewrite H. simpl. replace (1 - 1) with 0 by ring.
    rewrite Reqb_true by reflexivity. unfold inf_times.
    rewrite Rltb_true by lra. split; [reflexivity | discriminate].
Qed.

Lemma gumbel_compute_theta_witness :
  Gumbel.compute_theta (mk_copula 1 (1/2) false) = Fin (1 / (1 - 1/2)) /\
  Gumbel.compute_theta (mk_copula 1 1 false) = PInf.
Proof.
  split.
  - apply (proj1 (proj2 (gumbel_compute_theta (mk_copula 1 (1/2) false)))). simpl. lra.
  - apply (proj2 (proj2 (gumbel_compute_theta (mk_copula 1 1 false)))). reflexivity.
Defined.

(** ** C8: Independence.fit *)

(** Claim C8: Independence.fit succeeds on every input and returns the
    instance with theta, tau and fitted unchanged. *)
Theorem independence_fit_noop (s : copula) (X : matrix) :
  Independence.fit s X = Ok s.
Proof. reflexivity. Qed.

(** ** C9: symmetry of the cumulative distribution *)

Lemma nadd_comm x y : nadd x y = nadd y x.
Proof. destruct x, y; simpl; try reflexivity. now rewrite Rplus_comm. Qed.

Lemma nmul_comm x y : nmul x y = nmul y x.
Proof. destruct x, y; simpl; try reflexivity. now rewrite Rmult_comm. Qed.

Lemma fst_swap P : map fst (swap_pairs P) = map snd P.
Proof. induction P as [|[u v] P IH]; simpl; congruence. Qed.

Lemma snd_swap P : map snd (swap_pairs P) = map fst P.
Proof. induction P as [|[u v] P IH]; simpl; congruence. Qed.

Lemma map_swap {B} (g : R * R -> B) P :
  map g (swap_pairs P) = map (fun '(u, v) => g (v, u)) P.
Proof. induction P as [|[u v] P IH]; simpl; congruence. Qed.

Lemma clayton_cdf_entry_sym th u v :
  Clayton.cdf_entry th u v = Clayton.cdf_entry th v u.
Proof. unfold Clayton.cdf_entry. now rewrite andb_comm, (nadd_comm (npow (Fin u) _)). Qed.

Lemma gumbel_cdf_entry_sym th u v :
  Gumbel.cdf_entry th u v = Gumbel.cdf_entry th v u.
Proof. unfold Gumbel.cdf_entry. now rewrite nadd_comm. Qed.

(** Claim C9: for every family and every instance, cumulative_distribution
    gives the same output vector when the two columns of the (n,2) input
    matrix are swapped. *)
Theorem cdf_symmetric (f : family) (s : copula) (P : list (R * R)) :
  cumulative_distribution f s (mat_of_pairs (swap_pairs P)) =
  cumulative_distribution f s (mat_of_pairs P).
Proof.
  destruct f; simpl;
    unfold Clayton.cumulative_distribution, Gumbel.cumulative_distribution,
      Independence.cumulative_distribution, check_fit;
    rewrite !split_pairs; simpl; rewrite !combine_fst_snd, ?fst_swap, ?snd_swap, !map_swap.
  - destruct (fitted s); simpl; [|reflexivity].
    rewrite orb_comm, !length_map.
    destruct (_ || _); [reflexivity|].
    do 2 f_equal. apply map_ext. intros [u v]. apply clayton_cdf_entry_sym.
  - destruct (fitted s); simpl; [|reflexivity].
    destruct (Reqb (theta s) 1); f_equal; apply map_ext; intros [u v].
    + simpl. now rewrite Rmult_comm.
    + apply gumbel_cdf_entry_sym.
  - f_equal. apply map_ext. intros [u v]. simpl. now rewrite Rmult_comm.
Qed.

(** ** C7: boundary values of the cumulative distribution *)

Lemma nlog_zero : nlog (Fin 0) = NInf.
Proof. simpl. rewrite Rltb_false by lra. now rewrite Reqb_true. Qed.

Lemma nlog_pos a : 0 < a -> nlog (Fin a) = Fin (ln a).
Proof. intros H. simpl. now rewrite Rltb_true. Qed.

Lemma Rpower_base1 b : Rpower 1 b = 1.
Proof. unfold Rpower. now rewrite ln_1, Rmult_0_r, exp_0. Qed.

Lemma py_max0_nonneg a : 0 <= a -> py_max0 (Fin a) = Fin a.
Proof. intros H. unfold py_max0. simpl. now rewrite Rltb_false by lra. Qed.

Lemma Reqb_eq a b : Reqb a b = true -> a = b.
Proof. unfold Reqb. destruct (Req_EM_T a b); congruence. Qed.

Lemma forallb_zero_col (col : R * R -> R) P :
  forallb (fun x => Reqb x 0) (map col P) = true -> Forall (fun p => col p = 0) P.
Proof.
  induction P as [|p P IH]; simpl; constructor;
    apply andb_true_iff in H as [H1 H2]; auto using Reqb_eq.
Qed.

(** One term [(-ln t)^theta] of the Gumbel formula, for t in [0,1], is
    finite or +inf. *)
Lemma gumbel_term th t : 0 < th -> 0 <= t <= 1 ->
  npow (nneg (nlog (Fin t))) (Fin th) = PInf \/
  exists r, npow (nneg (nlog (Fin t))) (Fin th) = Fin r.
Proof.
  intros Hth [H0 H1]. destruct (Req_dec t 0) as [->|Ht].
  - left. rewrite nlog_zero. simpl nneg. now apply npow_pinf_pos.
  - right. rewrite nlog_pos by lra. simpl nneg.
    assert (ln t <= 0).
    { destruct (Rlt_or_le t 1) as [Hl|Hl].
      - rewrite <- ln_1. apply Rlt_le, ln_increasing; lra.
      - replace t with 1 by lra. rewrite ln_1. lra. }
    destruct (Req_dec (- ln t) 0) as [E|E].
    + rewrite E, npow_zero_pos by lra. eauto.
    + rewrite npow_pos by lra. eauto.
Qed.

Lemma gumbel_entry_zero th v : 1 < th -> 0 <= v <= 1 ->
  Gumbel.cdf_entry th 0 v = Fin 0.
Proof.
  intros Hth Hv. unfold Gumbel.cdf_entry.
  rewrite nlog_zero. cbn [nneg]. rewrite npow_pinf_pos by lra.
  rewrite ndiv_fin by lra.
  destruct (gumbel_term th v) as [E|[r E]]; try lra; rewrite E; cbn [nadd];
    rewrite npow_pinf_pos by (apply Rdiv_lt_0_compat; lra); reflexivity.
Qed.

Lemma gumbel_entry_one th : 1 < th -> Gumbel.cdf_entry th 1 1 = Fin 1.
Proof.
  intros Hth. unfold Gumbel.cdf_entry.
  rewrite nlog_pos by lra. cbn [nneg]. rewrite ln_1, Ropp_0.
  rewrite npow_zero_pos by lra. cbn [nadd]. rewrite Rplus_0_l.
  rewrite ndiv_fin by lra.
  rewrite npow_zero_pos by (apply Rdiv_lt_0_compat; lra).
  cbn [nneg nexp]. now rewrite Ropp_0, exp_0.
Qed.

Lemma clayton_entry_zero th u v : (u = 0 \/ v = 0) ->
  py_max0 (Clayton.cdf_entry th u v) = Fin 0.
Proof.
  intros Huv. unfold Clayton.cdf_entry.
  replace (Rltb 0 u && Rltb 0 v) with false.
  - apply py_max0_nonneg. lra.
  - destruct Huv as [->| ->]; rewrite (Rltb_false 0 0) by lra;
      [reflexivity | now rewrite andb_false_r].
Qed.

Lemma clayton_entry_one th : th <> 0 ->
  py_max0 (Clayton.cdf_entry th 1 1) = Fin 1.
Proof.
  intros Hth. unfold Clayton.cdf_entry.
  rewrite Rltb_true by lra. simpl andb.
  rewrite npow_pos, Rpower_base1 by lra. cbn [nsub nadd nneg].
  rewrite ndiv_fin by assumption.
  rewrite npow_pos by lra.
  match goal with |- context [Rpower ?a _] => replace a with 1 by ring end.
  rewrite Rpower_base1.
  apply py_max0_nonneg. lra.
Qed.

(** Claim C7: for every family fitted with a theta in its domain, and any
    (n,2) matrix with entries in [0,1], cumulative_distribution succeeds,
    gives 0 on every row with u = 0 or v = 0, and 1 on every row (1,1). *)
Theorem cdf_boundary (f : family) (s : copula) (P : list (R * R)) :
  fitted s = true -> theta_valid f (theta s) ->
  Forall (fun '(u, v) => 0 <= u <= 1 /\ 0 <= v <= 1) P ->
  exists out, cumulative_distribution f s (mat_of_pairs P) = Ok out /\
    Forall2 (fun '(u, v) r =>
      ((u = 0 \/ v = 0) -> r = Fin 0) /\ (u = 1 -> v = 1 -> r = Fin 1)) P out.
Proof.
  intros Hf Hth Hin.
  destruct f; simpl in Hth |- *;
    unfold Clayton.cumulative_distribution, Gumbel.cumulative_distribution,
      Independence.cumulative_distribution, check_fit;
    rewrite ?Hf, split_pairs; simpl; rewrite ?combine_fst_snd.
  - destruct (forallb _ (map snd P) || forallb _ (map fst P)) eqn:E.
    + eexists; split; [reflexivity|].
      replace (repeat (Fin 0) (length (map snd P))) with (map (fun _ : R * R => Fin 0) P)
        by (clear; induction P; simpl; congruence).
      apply Forall2_map_r.
      apply orb_true_iff in E as [E|E]; apply forallb_zero_col in E;
        eapply Forall_impl; [| exact E | | exact E]; intros [u v] H; simpl in H;
        split; auto; intros; lra.
    + eexists; split; [reflexivity|]. rewrite map_map. apply Forall2_map_r.
      eapply Forall_impl; [| exact Hin]. intros [u v] _.
      split; [apply clayton_entry_zero|].
      intros -> ->. apply clayton_entry_one. tauto.
  - destruct (Reqb (theta s) 1) eqn:E;
      eexists; (split; [reflexivity|]); apply Forall2_map_r;
      eapply Forall_impl; try exact Hin; intros [u v] [Hu Hv]; simpl.
    + split; [intros [-> | ->]|intros -> ->]; f_equal; ring.
    + assert (1 < theta s).
      { destruct Hth as [Hlt|Heq]; [exact Hlt|].
        rewrite Reqb_true in E by (symmetry; exact Heq). discriminate. }
      split; [intros [-> | ->]|intros -> ->].
      * now apply gumbel_entry_zero.
      * rewrite gumbel_cdf_entry_sym. now apply gumbel_entry_zero.
      * now apply gumbel_entry_one.
  - eexists; split; [reflexivity|]. apply Forall2_map_r.
    eapply Forall_impl; [| exact Hin]. intros [u v] _. simpl.
    split; [intros [-> | ->]|intros -> ->]; f_equal; ring.
Qed.

Lemma cdf_boundary_witness :
  exists out, cumulative_distribution FClayton (mk_copula 2 0 true)
      (mat_of_pairs [(1, 1); (0, 1/2)]) = Ok out /\
    Forall2 (fun '(u, v) r =>
      ((u = 0 \/ v = 0) -> r = Fin 0) /\ (u = 1 -> v = 1 -> r = Fin 1))
      [(1, 1); (0, 1/2)] out.
Proof.
  apply (cdf_boundary FClayton (mk_copula 2 0 true) [(1, 1); (0, 1/2)]).
  - reflexivity.
  - simpl. lra.
  - repeat constructor; lra.
Defined.

(** ** C2: the Clayton cumulative distribution *)

Lemma npow_neg_int a z : a < 0 -> z <> 0%Z ->
  npow (Fin a) (Fin (IZR z)) = Fin (powerRZ a z).
Proof.
  intros Ha Hz. unfold npow, is_zero, is_one.
  rewrite (Reqb_false (IZR z) 0) by (intros E; apply Hz, eq_IZR; exact E).
  rewrite (Reqb_false a 1) by lra.
  rewrite Rltb_false, Reqb_false by lra.
  unfold is_int, int_of. rewrite up_IZR, Reqb_true.
  - f_equal. f_equal. lia.
  - rewrite plus_IZR. ring.
Qed.

Lemma Rpower_half a : 0 < a -> Rpower (a * a) (/ 2) = a.
Proof.
  intros Ha. rewrite Rpower_sqrt by nra. apply sqrt_square. lra.
Qed.

Definition clayton_neg_half : copula := mk_copula (-1/2) 0 true.

(** Claim C2 (code defect): for theta = -1/2 and the pair (0.04, 0.04) the
    base u^-theta + v^-theta - 1 = -0.6 is negative; the code raises it to
    the power -1/theta = 2 first and applies max(., 0) afterwards, returning
    0.36, where max(base, 0)^2 = 0. *)
Theorem clayton_cdf_clamp_after_power :
  Clayton.cumulative_distribution clayton_neg_half [[1/25; 1/25]] = Ok [Fin (9/25)] /\
  Clayton.cumulative_distribution clayton_neg_half [[1/25; 1/25]] <> Ok [Fin 0].
Proof.
  assert (E : Clayton.cumulative_distribution clayton_neg_half [[1/25; 1/25]] = Ok [Fin (9/25)]).
  { unfold Clayton.cumulative_distribution, check_fit, clayton_neg_half.
    cbn [fitted theta bind].
    change [[1/25; 1/25]] with (mat_of_pairs [(1/25, 1/25)]). rewrite split_pairs.
    cbn [bind map fst snd forallb combine].
    rewrite Reqb_false by lra. cbn [orb andb].
    unfold Clayton.cdf_entry. rewrite Rltb_true by lra. cbn [andb].
    rewrite npow_pos by lra.
    replace (Rpower (1/25) (- (-1/2))) with (1/5)
      by (replace (1/25) with (1/5 * (1/5)) by field;
          replace (- (-1/2)) with (/ 2) by field;
          symmetry; apply Rpower_half; lra).
    cbn [nsub nadd nneg]. rewrite ndiv_fin by lra.
    replace (-1 / (-1/2)) with (IZR 2) by field.
    replace (1/5 + 1/5 + - (1)) with (-3/5) by field.
    rewrite npow_neg_int by (lra || discriminate).
    replace (powerRZ (-3/5) 2) with (9/25) by (simpl; field).
    rewrite py_max0_nonneg by lra. reflexivity. }
  split; [exact E|]. rewrite E. intros H. injection H. lra.
Qed.

(** ** C5: percent_point and partial_derivative *)

(** The real-number identity behind Clayton's closed-form inverse. *)
Lemma clayton_inverse_real th y v : 0 < th -> 0 < y < 1 -> 0 < v < 1 ->
  let a := Rpower y (th / (-1 - th)) in
  let b := Rpower v th in
  let w := (a + b + Ropp 1) / b in
  let u := Rpower w (-1 / th) in
  1 < w /\ 0 < u < 1 /\
  0 < Rpower v (- th) + Rpower u (- th) + Ropp 1 /\
  Rpower v (- th - 1) * Rpower (Rpower v (- th) + Rpower u (- th) + Ropp 1) ((-1 - th) / th) = y.
Proof.
  intros Hth Hy Hv. cbv zeta.
  assert (HL : ln y < 0) by (rewrite <- ln_1; apply ln_increasing; lra).
  assert (HM : ln v < 0) by (rewrite <- ln_1; apply ln_increasing; lra).
  assert (Hk : th / (-1 - th) < 0).
  { unfold Rdiv. assert (/ (-1 - th) < 0) by (apply Rinv_lt_0_compat; lra). nra. }
  remember (th / (-1 - th)) as k eqn:Hkdef.
  assert (Hla : ln (Rpower y k) = k * ln y) by apply ln_Rpower.
  assert (Hlb : ln (Rpower v th) = th * ln v) by apply ln_Rpower.
  assert (Hvb : Rpower v (- th) = / Rpower v th) by apply Rpower_Ropp.
  remember (Rpower y k) as a eqn:Ha_def. remember (Rpower v th) as b eqn:Hb_def.
  assert (Ha : 1 < a).
  { rewrite Ha_def. unfold Rpower. rewrite <- exp_0. apply exp_increasing. nra. }
  assert (Hb : 0 < b < 1).
  { rewrite Hb_def. unfold Rpower. split; [apply exp_pos|].
    rewrite <- exp_0. apply exp_increasing. nra. }
  remember ((a + b + Ropp 1) / b) as w eqn:Hw_def.
  assert (Hw : 1 < w).
  { assert (0 < (a - 1) / b) by (apply Rdiv_lt_0_compat; lra).
    replace w with (1 + (a - 1) / b) by (rewrite Hw_def; field; lra). lra. }
  assert (Hlw : 0 < ln w) by (rewrite <- ln_1; apply ln_increasing; lra).
  assert (Huw : Rpower (Rpower w (-1 / th)) (- th) = w).
  { rewrite Rpower_mult. replace (-1 / th * - th) with 1 by (field; lra).
    apply Rpower_1. lra. }
  split; [exact Hw|]. split.
  { unfold Rpower. split; [apply exp_pos|]. rewrite <- exp_0. apply exp_increasing.
    replace (-1 / th * ln w) with (- (/ th * ln w)) by (field; lra).
    assert (0 < / th * ln w) by (apply Rmult_lt_0_compat; [apply Rinv_0_lt_compat|]; lra).
    lra. }
  rewrite Huw, Hvb. split.
  { assert (0 < / b) by (apply Rinv_0_lt_compat; lra). lra. }
  replace (/ b + w + Ropp 1) with (a * / b) by (rewrite Hw_def; field; lra).
  unfold Rpower at 2.
  rewrite ln_mult, ln_Rinv, Hla, Hlb by (try apply Rinv_0_lt_compat; lra).
  unfold Rpower. rewrite <- exp_plus.
  replace (- th - 1) with (-1 - th) by ring. rewrite Hkdef.
  replace ((-1 - th) * ln v + (-1 - th) / th * (th / (-1 - th) * ln y + - (th * ln v)))
    with (ln y) by (field; lra).
  apply exp_ln. lra.
Qed.

(** Claim C5 (as amended): for Clayton fitted with theta > 0 and every y, v
    in (0,1), percent_point([y], [v]) is a single u in (0,1) and
    partial_derivative([[u, v]], 0) gives back exactly [y]. *)
Theorem clayton_roundtrip (s : copula) (y v : R) :
  fitted s = true -> 0 < theta s -> 0 < y < 1 -> 0 < v < 1 ->
  exists u, Clayton.percent_point s [y] [v] = Ok [Fin u] /\ 0 < u < 1 /\
    Clayton.partial_derivative s [[u; v]] 0 = Ok [Fin y].
Proof.
  intros Hf Hth Hy Hv.
  destruct (clayton_inverse_real (theta s) y v Hth Hy Hv) as [Hw [Hu [HB Heq]]].
  cbv zeta in Hw, Hu, HB, Heq.
  eexists. split; [|split; [exact Hu|]].
  - unfold Clayton.percent_point, check_fit. rewrite Hf. cbn [bind].
    rewrite Rltb_false by lra. unfold broadcast2. cbn [length Nat.eqb combine bind map].
    rewrite ndiv_fin by lra. rewrite !npow_pos by (try apply exp_pos; lra).
    cbn [nsub nadd nneg]. rewrite ndiv_fin by (apply Rgt_not_eq, exp_pos).
    rewrite ndiv_fin by lra. rewrite npow_pos by lra. reflexivity.
  - unfold Clayton.partial_derivative, check_fit. rewrite Hf. cbn [bind].
    change [[?u; v]] with (mat_of_pairs [(u, v)]). rewrite split_pairs.
    cbn [bind map fst snd combine]. rewrite Reqb_false by lra.
    unfold Clayton.pd_entry. rewrite !npow_pos by (try apply exp_pos; lra).
    cbn [nsub nadd nneg]. rewrite ndiv_fin by lra. rewrite npow_pos by exact HB.
    cbn [nmul nsub nadd nneg]. rewrite Heq, Ropp_0, Rplus_0_r. reflexivity.
Qed.

Lemma clayton_roundtrip_witness :
  exists u, Clayton.percent_point (mk_copula 2 0 true) [1/2] [1/2] = Ok [Fin u] /\ 0 < u < 1 /\
    Clayton.partial_derivative (mk_copula 2 0 true) [[u; 1/2]] 0 = Ok [Fin (1/2)].
Proof.
  apply (clayton_roundtrip (mk_copula 2 0 true) (1/2) (1/2)); simpl; lra || reflexivity.
Defined.

(** Claim C5 as stated fails: for Clayton with theta = -1/2 (in its
    domain), percent_point([0.5], [0.25]) returns v = 0.25 unchanged, and
    partial_derivative([[0.25, 0.25]], 0) is [0], not [0.5]. *)
Lemma clayton_roundtrip_counterexample :
  Clayton.percent_point clayton_neg_half [1/2] [1/4] = Ok [Fin (1/4)] /\
  Clayton.partial_derivative clayton_neg_half [[1/4; 1/4]] 0 <> Ok [Fin (1/2)].
Proof.
  split.
  - unfold Clayton.percent_point, check_fit, clayton_neg_half. cbn [fitted theta bind].
    rewrite Rltb_true by lra. reflexivity.
  - unfold Clayton.partial_derivative, check_fit, clayton_neg_half. cbn [fitted theta bind].
    change [[1/4; 1/4]] with (mat_of_pairs [(1/4, 1/4)]). rewrite split_pairs.
    cbn [bind map fst snd combine]. rewrite Reqb_false by lra.
    unfold Clayton.pd_entry. rewrite !npow_pos by lra.
    replace (Rpower (1/4) (- (-1/2))) with (1/2)
      by (replace (1/4) with (1/2 * (1/2)) by field;
          replace (- (-1/2)) with (/ 2) by field;
          symmetry; apply Rpower_half; lra).
    cbn [nsub nadd nneg]. rewrite ndiv_fin by lra.
    replace (1/2 + 1/2 + - (1)) with 0 by field.
    rewrite npow_zero_pos by (apply Rdiv_neg_neg; lra || idtac; lra).
    cbn [nmul nsub nadd nneg]. intros H. injection H. rewrite Rmult_0_r. lra.
Qed.

(** * Further properties of the three families *)

(** ** Monotonicity of exp, ln and Rpower *)

Lemma exp_le_mono x y : x <= y -> exp x <= exp y.
Proof. intros [H| ->]; [left; now apply exp_increasing | right; reflexivity]. Qed.

Lemma ln_le_mono x y : 0 < x -> x <= y -> ln x <= ln y.
Proof. intros Hx [H| ->]; [left; now apply ln_increasing | right; reflexivity]. Qed.

Lemma Rpower_pos a p : 0 < Rpower a p.
Proof. apply exp_pos. Qed.

(** A nonpositive power is antitone in the base. *)
Lemma Rpower_anti a b p : 0 < a -> a <= b -> p <= 0 -> Rpower b p <= Rpower a p.
Proof.
  intros Ha Hab Hp. unfold Rpower. apply exp_le_mono.
  assert (ln a <= ln b) by (apply ln_le_mono; lra). nra.
Qed.

(** A nonnegative power is monotone in the base. *)
Lemma Rpower_mono a b p : 0 < a -> a <= b -> 0 <= p -> Rpower a p <= Rpower b p.
Proof.
  intros Ha Hab Hp. unfold Rpower. apply exp_le_mono.
  assert (ln a <= ln b) by (apply ln_le_mono; lra). nra.
Qed.

Lemma Rpower_ge1 a p : 0 < a <= 1 -> p <= 0 -> 1 <= Rpower a p.
Proof.
  intros Ha Hp. rewrite <- (Rpower_base1 p). apply Rpower_anti; lra.
Qed.

Lemma Rpower_inv_exp a p : 0 < a -> p <> 0 -> Rpower (Rpower a p) (/ p) = a.
Proof.
  intros Ha Hp. rewrite Rpower_mult. replace (p * / p) with 1 by (field; exact Hp).
  now apply Rpower_1.
Qed.

Lemma nsub_zero x : nsub x (Fin 0) = x.
Proof. destruct x; simpl; try reflexivity. now rewrite Ropp_0, Rplus_0_r. Qed.

Lemma repeat_map_const {A B} (f : A -> B) (c : B) l :
  Forall (fun p => f p = c) l -> repeat c (length l) = map f l.
Proof. induction 1; simpl; congruence. Qed.

(** ** Clayton: cumulative distribution *)

Lemma clayton_cdf_map (s : copula) (P : list (R * R)) :
  fitted s = true ->
  Clayton.cumulative_distribution s (mat_of_pairs P) =
  Ok (map (fun '(u, v) => py_max0 (Clayton.cdf_entry (theta s) u v)) P).
Proof.
  intros Hf. unfold Clayton.cumulative_distribution, check_fit.
  rewrite Hf, split_pairs. simpl. rewrite combine_fst_snd, map_map.
  destruct (_ || _) eqn:E; [|f_equal; apply map_ext; now intros [u v]].
  f_equal. rewrite length_map. apply repeat_map_const.
  apply orb_true_iff in E as [E|E]; apply forallb_zero_col in E;
    eapply Forall_impl; try exact E; intros [u v] H; simpl in H;
    apply clayton_entry_zero; tauto.
Qed.

(** [Clayton.cumulative_distribution]: the shortcut returning the zero
    vector when a column is all zero agrees with the element-wise rule, so
    the output is always [max(cdf_entry, 0)] row by row. *)
Theorem clayton_cdf_elementwise (s : copula) (P : list (R * R)) :
  fitted s = true ->
  Clayton.cumulative_distribution s (mat_of_pairs P) =
  Ok (map (fun '(u, v) => py_max0 (Clayton.cdf_entry (theta s) u v)) P).
Proof. apply clayton_cdf_map. Qed.

Lemma clayton_cdf_elementwise_witness :
  Clayton.cumulative_distribution (mk_copula 2 0 true) (mat_of_pairs [(0, 1/2); (0, 1)]) =
  Ok (map (fun '(u, v) => py_max0 (Clayton.cdf_entry 2 u v)) [(0, 1/2); (0, 1)]).
Proof. exact (clayton_cdf_elementwise (mk_copula 2 0 true) _ eq_refl). Defined.

(** The value of a Clayton entry with theta > 0 at a pair in (0,1]^2. *)
Lemma clayton_entry_pos th u v : 0 < th -> 0 < u <= 1 -> 0 < v <= 1 ->
  py_max0 (Clayton.cdf_entry th u v) =
  Fin (Rpower (Rpower u (- th) + Rpower v (- th) + Ropp 1) (-1 / th)).
Proof.
  intros Hth Hu Hv. unfold Clayton.cdf_entry.
  rewrite !Rltb_true by lra. simpl andb.
  rewrite !npow_pos by lra. cbn [nsub nadd nneg].
  assert (1 <= Rpower u (- th)) by (apply Rpower_ge1; lra).
  assert (1 <= Rpower v (- th)) by (apply Rpower_ge1; lra).
  rewrite ndiv_fin by lra. rewrite npow_pos by lra.
  apply py_max0_nonneg. left. apply Rpower_pos.
Qed.

(** The Clayton entry with theta > 0 is at most each of its arguments. *)
Lemma clayton_entry_le_u th u v : 0 < th -> 0 < u <= 1 -> 0 < v <= 1 ->
  Rpower (Rpower u (- th) + Rpower v (- th) + Ropp 1) (-1 / th) <= u.
Proof.
  intros Hth Hu Hv.
  assert (1 <= Rpower u (- th)) by (apply Rpower_ge1; lra).
  assert (1 <= Rpower v (- th)) by (apply Rpower_ge1; lra).
  rewrite <- (Rpower_inv_exp u (- th)) at 2 by lra.
  replace (/ - th) with (-1 / th) by (field; lra).
  apply Rpower_anti; [lra | lra |].
  unfold Rdiv. assert (0 < / th) by (apply Rinv_0_lt_compat; lra). lra.
Qed.

(** [Clayton.cumulative_distribution] with theta > 0 on an (n,2) matrix with
    entries in [0,1] returns one finite value per row, between 0 and
    min(u, v). *)
Theorem clayton_cdf_range (s : copula) (P : list (R * R)) :
  fitted s = true -> 0 < theta s ->
  Forall (fun '(u, v) => 0 <= u <= 1 /\ 0 <= v <= 1) P ->
  exists out, Clayton.cumulative_distribution s (mat_of_pairs P) = Ok out /\
    Forall2 (fun '(u, v) r => exists c, r = Fin c /\ 0 <= c /\ c <= u /\ c <= v) P out.
Proof.
  intros Hf Hth Hin. rewrite clayton_cdf_map by exact Hf.
  eexists; split; [reflexivity|]. apply Forall2_map_r.
  eapply Forall_impl; [|exact Hin]. intros [u v] [Hu Hv].
  destruct (Req_dec u 0) as [Hu0|Hu0]; [|destruct (Req_dec v 0) as [Hv0|Hv0]].
  - rewrite clayton_entry_zero by tauto. exists 0. split; [reflexivity | lra].
  - rewrite clayton_entry_zero by tauto. exists 0. split; [reflexivity | lra].
  - rewrite clayton_entry_pos by lra. eexists; split; [reflexivity|].
    split; [left; apply Rpower_pos|]. split.
    + apply clayton_entry_le_u; lra.
    + rewrite (Rplus_comm (Rpower u _)). apply clayton_entry_le_u; lra.
Qed.

Lemma clayton_cdf_range_witness :
  exists out, Clayton.cumulative_distribution (mk_copula 2 0 true)
      (mat_of_pairs [(1/2, 1/2); (0, 1)]) = Ok out /\
    Forall2 (fun '(u, v) r => exists c, r = Fin c /\ 0 <= c /\ c <= u /\ c <= v)
      [(1/2, 1/2); (0, 1)] out.
Proof.
  apply (clayton_cdf_range (mk_copula 2 0 true)); simpl; try lra; try reflexivity.
  repeat constructor; lra.
Defined.

(** ** Clayton: generator *)

Lemma clayton_gen_entry th t : th <> 0 -> 0 < t ->
  nmul (ndiv (Fin 1) (Fin th)) (nsub (npow (Fin t) (Fin (- th))) (Fin 1)) =
  Fin (1 / th * (Rpower t (- th) + Ropp 1)).
Proof.
  intros Hth Ht. rewrite ndiv_fin, npow_pos by assumption. reflexivity.
Qed.

Lemma clayton_gen_real_lt th t1 t2 : th <> 0 -> 0 < t1 < t2 ->
  1 / th * (Rpower t2 (- th) + Ropp 1) < 1 / th * (Rpower t1 (- th) + Ropp 1).
Proof.
  intros Hth Ht. unfold Rpower.
  assert (ln t1 < ln t2) by (apply ln_increasing; lra).
  destruct (Rlt_or_le 0 th) as [Hp|Hn].
  - assert (exp (- th * ln t2) < exp (- th * ln t1)) by (apply exp_increasing; nra).
    assert (0 < 1 / th) by (apply Rdiv_lt_0_compat; lra). nra.
  - assert (exp (- th * ln t1) < exp (- th * ln t2)) by (apply exp_increasing; nra).
    assert (1 / th < 0) by (apply Rdiv_pos_neg; lra). nra.
Qed.

(** [Clayton.generator] for any theta <> 0 is strictly decreasing on (0,1],
    vanishes at 1 and is nonnegative on (0,1]. *)
Theorem clayton_generator_decreasing (s : copula) (t1 t2 : R) :
  fitted s = true -> theta s <> 0 -> 0 < t1 < t2 -> t2 <= 1 ->
  exists g1 g2 g3, Clayton.generator s [t1; t2; 1] = Ok [Fin g1; Fin g2; Fin g3] /\
    g3 = 0 /\ 0 <= g2 /\ g2 < g1.
Proof.
  intros Hf Hth Ht H2. unfold Clayton.generator, check_fit. rewrite Hf. cbn [bind map].
  rewrite !clayton_gen_entry by lra.
  do 3 eexists. split; [reflexivity|].
  rewrite Rpower_base1. split; [field; exact Hth|]. split.
  - destruct (Req_dec t2 1) as [->|Hne].
    + rewrite Rpower_base1. right. field. exact Hth.
    + left. replace 0 with (1 / theta s * (Rpower 1 (- theta s) + Ropp 1))
        by (rewrite Rpower_base1; field; exact Hth).
      apply clayton_gen_real_lt; lra.
  - apply clayton_gen_real_lt; lra.
Qed.

Lemma clayton_generator_decreasing_witness :
  exists g1 g2 g3, Clayton.generator (mk_copula (-1/2) 0 true) [1/4; 1/2; 1] =
    Ok [Fin g1; Fin g2; Fin g3] /\ g3 = 0 /\ 0 <= g2 /\ g2 < g1.
Proof.
  apply (clayton_generator_decreasing (mk_copula (-1/2) 0 true)); simpl;
    try reflexivity; lra.
Defined.

(** [Clayton.generator] and [Clayton.cumulative_distribution] with theta > 0
    satisfy the Archimedean identity psi(C(u,v)) = psi(u) + psi(v) on
    (0,1]^2. *)
Theorem clayton_archimedean (s : copula) (u v : R) :
  fitted s = true -> 0 < theta s -> 0 < u <= 1 -> 0 < v <= 1 ->
  exists c, Clayton.cumulative_distribution s [[u; v]] = Ok [Fin c] /\
  exists gc gu gv,
    Clayton.generator s [c] = Ok [Fin gc] /\
    Clayton.generator s [u; v] = Ok [Fin gu; Fin gv] /\
    gc = gu + gv.
Proof.
  intros Hf Hth Hu Hv.
  change [[u; v]] with (mat_of_pairs [(u, v)]).
  rewrite clayton_cdf_map by exact Hf. cbn [map].
  rewrite clayton_entry_pos by lra.
  unfold Clayton.generator, check_fit. rewrite Hf. cbn [bind map].
  assert (1 <= Rpower u (- theta s)) by (apply Rpower_ge1; lra).
  assert (1 <= Rpower v (- theta s)) by (apply Rpower_ge1; lra).
  rewrite (clayton_gen_entry (theta s) u), (clayton_gen_entry (theta s) v) by lra.
  eexists. split; [reflexivity|].
  rewrite clayton_gen_entry by (try apply Rpower_pos; lra).
  do 3 eexists. split; [reflexivity|]. split; [reflexivity|].
  rewrite Rpower_mult. replace (-1 / theta s * - theta s) with 1 by (field; lra).
  rewrite Rpower_1 by lra. field. lra.
Qed.

Lemma clayton_archimedean_witness :
  exists c, Clayton.cumulative_distribution (mk_copula 2 0 true) [[1/2; 1/3]] = Ok [Fin c] /\
  exists gc gu gv,
    Clayton.generator (mk_copula 2 0 true) [c] = Ok [Fin gc] /\
    Clayton.generator (mk_copula 2 0 true) [1/2; 1/3] = Ok [Fin gu; Fin gv] /\
    gc = gu + gv.
Proof. apply (clayton_archimedean (mk_copula 2 0 true)); simpl; try reflexivity; lra. Defined.

(** ** theta from tau *)

(** [Clayton.compute_theta] inverts Kendall's tau = theta / (theta + 2) for
    every tau < 1, maps tau >= -1 into theta >= -1, and gives the invalid
    theta = 0 exactly at tau = 0. *)
Theorem clayton_compute_theta_inverse (s : copula) :
  tau s < 1 ->
  exists th, Clayton.compute_theta s = Fin th /\ 0 < th + 2 /\
    th / (th + 2) = tau s /\ (-1 <= tau s -> -1 <= th) /\ (th = 0 <-> tau s = 0).
Proof.
  intros Ht. unfold Clayton.compute_theta. rewrite Reqb_false by lra.
  rewrite ndiv_fin by lra.
  eexists. split; [reflexivity|].
  assert (0 < 1 - tau s) by lra.
  assert (E : 2 * tau s / (1 - tau s) + 2 = 2 / (1 - tau s)) by (field; lra).
  rewrite E. split; [apply Rdiv_lt_0_compat; lra|]. split; [field; lra|]. split.
  - intros H1. apply Rmult_le_reg_r with (1 - tau s); [lra|].
    unfold Rdiv. rewrite Rmult_assoc, Rinv_l by lra. lra.
  - split; intros H0.
    + apply Rmult_eq_compat_r with (r := 1 - tau s) in H0.
      unfold Rdiv in H0. rewrite Rmult_assoc, Rinv_l in H0 by lra. lra.
    + rewrite H0. unfold Rdiv. ring.
Qed.

Lemma clayton_compute_theta_inverse_witness :
  exists th, Clayton.compute_theta (mk_copula 0 (1/3) false) = Fin th /\ 0 < th + 2 /\
    th / (th + 2) = 1/3 /\ (-1 <= 1/3 -> -1 <= th) /\ (th = 0 <-> 1/3 = 0).
Proof. apply (clayton_compute_theta_inverse (mk_copula 0 (1/3) false)). simpl. lra. Defined.

(** [Gumbel.compute_theta] inverts Kendall's tau = (theta - 1) / theta for
    every tau <> 1, and maps tau in [0,1) into the Gumbel domain theta >= 1. *)
Theorem gumbel_compute_theta_inverse (s : copula) :
  tau s <> 1 ->
  exists th, Gumbel.compute_theta s = Fin th /\ th <> 0 /\
    (th - 1) / th = tau s /\ (0 <= tau s < 1 -> 1 <= th).
Proof.
  intros Ht. unfold Gumbel.compute_theta. rewrite ndiv_fin by lra.
  eexists. split; [reflexivity|].
  assert (1 - tau s <> 0) by lra.
  split; [unfold Rdiv; rewrite Rmult_1_l; now apply Rinv_neq_0_compat|].
  split; [field; lra|].
  intros [H0 H1]. apply Rmult_le_reg_r with (1 - tau s); [lra|].
  field_simplify; lra.
Qed.

Lemma gumbel_compute_theta_inverse_witness :
  exists th, Gumbel.compute_theta (mk_copula 1 (1/2) false) = Fin th /\ th <> 0 /\
    (th - 1) / th = 1/2 /\ (0 <= 1/2 < 1 -> 1 <= th).
Proof. apply (gumbel_compute_theta_inverse (mk_copula 1 (1/2) false)). simpl. lra. Defined.

(** ** Gumbel: generator and cumulative distribution *)

(** The value of [np.power] at a nonnegative base and positive exponent. *)
Definition pw (a p : R) : R := if Reqb a 0 then 0 else Rpower a p.

Lemma npow_nonneg a p : 0 <= a -> 0 < p -> npow (Fin a) (Fin p) = Fin (pw a p).
Proof.
  intros Ha Hp. unfold pw. destruct (Req_dec a 0) as [->|Hne].
  - rewrite npow_zero_pos by exact Hp. now rewrite Reqb_true.
  - rewrite npow_pos by lra. now rewrite Reqb_false.
Qed.

Lemma pw_nonneg a p : 0 <= pw a p.
Proof. unfold pw. destruct (Reqb a 0); [lra | left; apply Rpower_pos]. Qed.

Lemma pw_pos a p : 0 < a -> pw a p = Rpower a p.
Proof. intros Ha. unfold pw. now rewrite Reqb_false by lra. Qed.

Lemma pw_zero p : pw 0 p = 0.
Proof. unfold pw. now rewrite Reqb_true. Qed.

Lemma pw_strict a b p : 0 <= a < b -> 0 < p -> pw a p < pw b p.
Proof.
  intros Hab Hp. rewrite (pw_pos b) by lra.
  destruct (Req_dec a 0) as [->|Hne]; [rewrite pw_zero; apply Rpower_pos|].
  rewrite pw_pos by lra. unfold Rpower. apply exp_increasing.
  assert (ln a < ln b) by (apply ln_increasing; lra). nra.
Qed.

Lemma pw_mono a b p : 0 <= a <= b -> 0 < p -> pw a p <= pw b p.
Proof.
  intros [Ha [Hab| ->]] Hp; [left; apply pw_strict; lra | right; reflexivity].
Qed.

Lemma pw_inv a p : 0 <= a -> 0 < p -> pw (pw a p) (1 / p) = a.
Proof.
  intros Ha Hp. destruct (Req_dec a 0) as [->|Hne]; [now rewrite !pw_zero|].
  rewrite (pw_pos a) by lra. rewrite pw_pos by apply Rpower_pos.
  rewrite Rpower_mult. replace (p * (1 / p)) with 1 by (field; lra).
  apply Rpower_1. lra.
Qed.

Lemma pw_one a : 0 <= a -> pw a 1 = a.
Proof.
  intros Ha. destruct (Req_dec a 0) as [->|Hne]; [apply pw_zero|].
  rewrite pw_pos by lra. apply Rpower_1. lra.
Qed.

Lemma neg_ln_nonneg t : 0 < t <= 1 -> 0 <= - ln t.
Proof.
  intros Ht. assert (ln t <= ln 1) by (apply ln_le_mono; lra). rewrite ln_1 in H. lra.
Qed.

(** One Gumbel term [(-ln t)^theta] for t in (0,1]. *)
Lemma gumbel_term_pos th t : 0 < th -> 0 < t <= 1 ->
  npow (nneg (nlog (Fin t))) (Fin th) = Fin (pw (- ln t) th).
Proof.
  intros Hth Ht. rewrite nlog_pos by lra. cbn [nneg].
  apply npow_nonneg; [apply neg_ln_nonneg; lra | exact Hth].
Qed.

(** [Gumbel.generator], with any theta > 0 and without a fit check, is +inf
    at 0, strictly decreasing on (0,1], 0 at 1 and nonnegative on (0,1]. *)
Theorem gumbel_generator_decreasing (s : copula) (t1 t2 : R) :
  0 < theta s -> 0 < t1 < t2 -> t2 <= 1 ->
  exists g1 g2 g3, Gumbel.generator s [0; t1; t2; 1] = Ok [PInf; Fin g1; Fin g2; Fin g3] /\
    g3 = 0 /\ 0 <= g2 /\ g2 < g1.
Proof.
  intros Hth Ht H2. unfold Gumbel.generator. cbn [map].
  rewrite nlog_zero. cbn [nneg]. rewrite npow_pinf_pos by exact Hth.
  rewrite !gumbel_term_pos by lra.
  do 3 eexists. split; [reflexivity|].
  rewrite ln_1, Ropp_0, pw_zero. split; [reflexivity|]. split; [apply pw_nonneg|].
  apply pw_strict; [|exact Hth]. split; [apply neg_ln_nonneg; lra|].
  apply Ropp_lt_contravar, ln_increasing; lra.
Qed.

Lemma gumbel_generator_decreasing_witness :
  exists g1 g2 g3, Gumbel.generator (mk_copula 2 0 false) [0; 1/4; 1/2; 1] =
    Ok [PInf; Fin g1; Fin g2; Fin g3] /\ g3 = 0 /\ 0 <= g2 /\ g2 < g1.
Proof. apply (gumbel_generator_decreasing (mk_copula 2 0 false)); simpl; lra. Defined.

(** The Gumbel entry with theta > 1 at a pair in (0,1]^2. *)
Lemma gumbel_entry_pos th u v : 1 < th -> 0 < u <= 1 -> 0 < v <= 1 ->
  Gumbel.cdf_entry th u v =
  Fin (exp (- pw (pw (- ln u) th + pw (- ln v) th) (1 / th))).
Proof.
  intros Hth Hu Hv. unfold Gumbel.cdf_entry.
  rewrite !gumbel_term_pos by lra. cbn [nadd]. rewrite ndiv_fin by lra.
  rewrite npow_nonneg.
  - reflexivity.
  - pose proof (pw_nonneg (- ln u) th). pose proof (pw_nonneg (- ln v) th). lra.
  - apply Rdiv_lt_0_compat; lra.
Qed.

Lemma gumbel_entry_le_u th u v : 1 < th -> 0 < u <= 1 -> 0 < v <= 1 ->
  exp (- pw (pw (- ln u) th + pw (- ln v) th) (1 / th)) <= u.
Proof.
  intros Hth Hu Hv.
  rewrite <- (exp_ln u) at 2 by lra.
  apply exp_le_mono.
  assert (- ln u <= pw (pw (- ln u) th + pw (- ln v) th) (1 / th)); [|lra].
  rewrite <- (pw_inv (- ln u) th) at 1 by (try apply neg_ln_nonneg; lra).
  apply pw_mono; [|apply Rdiv_lt_0_compat; lra].
  pose proof (pw_nonneg (- ln u) th). pose proof (pw_nonneg (- ln v) th). lra.
Qed.

(** [Gumbel.cumulative_distribution] with theta >= 1 on an (n,2) matrix with
    entries in [0,1] returns one finite value per row, between 0 and
    min(u, v). *)
Theorem gumbel_cdf_range (s : copula) (P : list (R * R)) :
  fitted s = true -> 1 <= theta s ->
  Forall (fun '(u, v) => 0 <= u <= 1 /\ 0 <= v <= 1) P ->
  exists out, Gumbel.cumulative_distribution s (mat_of_pairs P) = Ok out /\
    Forall2 (fun '(u, v) r => exists c, r = Fin c /\ 0 <= c /\ c <= u /\ c <= v) P out.
Proof.
  intros Hf Hth Hin. unfold Gumbel.cumulative_distribution, check_fit.
  rewrite Hf, split_pairs. simpl. rewrite combine_fst_snd.
  destruct (Reqb (theta s) 1) eqn:E;
    eexists; (split; [reflexivity|]); apply Forall2_map_r;
    eapply Forall_impl; try exact Hin; intros [u v] [Hu Hv].
  - simpl. eexists; split; [reflexivity|]. split; [|split]; nra.
  - assert (1 < theta s).
    { destruct Hth as [Hlt|Heq]; [exact Hlt|].
      rewrite Reqb_true in E by (symmetry; exact Heq). discriminate. }
    destruct (Req_dec u 0) as [->|Hu0]; [|destruct (Req_dec v 0) as [->|Hv0]].
    + rewrite gumbel_entry_zero by lra. exists 0. split; [reflexivity|lra].
    + rewrite gumbel_cdf_entry_sym, gumbel_entry_zero by lra.
      exists 0. split; [reflexivity|lra].
    + rewrite gumbel_entry_pos by lra. eexists; split; [reflexivity|].
      split; [left; apply exp_pos|]. split.
      * apply gumbel_entry_le_u; lra.
      * rewrite Rplus_comm. apply gumbel_entry_le_u; lra.
Qed.

Lemma gumbel_cdf_range_witness :
  exists out, Gumbel.cumulative_distribution (mk_copula 2 0 true)
      (mat_of_pairs [(1/2, 1/2); (0, 1)]) = Ok out /\
    Forall2 (fun '(u, v) r => exists c, r = Fin c /\ 0 <= c /\ c <= u /\ c <= v)
      [(1/2, 1/2); (0, 1)] out.
Proof.
  apply (gumbel_cdf_range (mk_copula 2 0 true)); simpl; try lra; try reflexivity.
  repeat constructor; lra.
Defined.

Lemma pw_inv' a p : 0 <= a -> 0 < p -> pw (pw a (1 / p)) p = a.
Proof.
  intros Ha Hp. rewrite <- (pw_inv a (1 / p)) at 2 by (try apply Rdiv_lt_0_compat; lra).
  f_equal. field. lra.
Qed.

(** [Gumbel] with theta >= 1 is Archimedean with its own generator: at
    (u, v) in (0,1]^2 the generator of C(u, v) is the sum of the generators
    of u and v (on both branches of [cumulative_distribution]). *)
Theorem gumbel_archimedean (s : copula) (u v : R) :
  fitted s = true -> 1 <= theta s -> 0 < u <= 1 -> 0 < v <= 1 ->
  exists c, Gumbel.cumulative_distribution s [[u; v]] = Ok [Fin c] /\
    exists gc gu gv, Gumbel.generator s [c] = Ok [Fin gc] /\
      Gumbel.generator s [u; v] = Ok [Fin gu; Fin gv] /\ gc = gu + gv.
Proof.
  intros Hf Hth Hu Hv.
  change [[u; v]] with (mat_of_pairs [(u, v)]).
  unfold Gumbel.cumulative_distribution, check_fit. rewrite Hf, split_pairs.
  cbn [bind fst snd map combine].
  unfold Gumbel.generator. cbn [map].
  destruct (Reqb (theta s) 1) eqn:E.
  - assert (theta s = 1) by (unfold Reqb in E; destruct (Req_EM_T (theta s) 1); congruence).
    cbn [nmul]. eexists; split; [reflexivity|].
    assert (0 < u * v <= 1) by nra.
    rewrite H, !gumbel_term_pos by lra.
    do 3 eexists; split; [reflexivity|]; split; [reflexivity|].
    rewrite !pw_one by (apply neg_ln_nonneg; lra).
    rewrite ln_mult by lra. ring.
  - assert (1 < theta s).
    { destruct Hth as [Hlt|Heq]; [exact Hlt|].
      rewrite Reqb_true in E by (symmetry; exact Heq). discriminate. }
    rewrite gumbel_entry_pos by lra. eexists; split; [reflexivity|].
    pose proof (gumbel_entry_le_u (theta s) u v H Hu Hv).
    rewrite !gumbel_term_pos by (try split; try apply exp_pos; lra).
    do 3 eexists; split; [reflexivity|]; split; [reflexivity|].
    rewrite ln_exp, Ropp_involutive. apply pw_inv'; [|lra].
    pose proof (pw_nonneg (- ln u) (theta s)). pose proof (pw_nonneg (- ln v) (theta s)). lra.
Qed.

Lemma gumbel_archimedean_witness :
  exists c, Gumbel.cumulative_distribution (mk_copula 2 0 true) [[1/2; 1/3]] = Ok [Fin c] /\
    exists gc gu gv, Gumbel.generator (mk_copula 2 0 true) [c] = Ok [Fin gc] /\
      Gumbel.generator (mk_copula 2 0 true) [1/2; 1/3] = Ok [Fin gu; Fin gv] /\ gc = gu + gv.
Proof. apply (gumbel_archimedean (mk_copula 2 0 true)); simpl; try reflexivity; lra. Defined.

(** ** Independence *)

(** [Independence] is Archimedean with generator [np.log]: for u, v > 0 the
    generator of the product [C(u, v) = u * v] is the sum of the generators
    of u and v; neither method checks that the copula is fitted. *)
Theorem independence_archimedean (s : copula) (u v : R) :
  0 < u -> 0 < v ->
  exists c, Independence.cumulative_distribution s [[u; v]] = Ok [Fin c] /\
    exists gc gu gv, Independence.generator s [c] = Ok [Fin gc] /\
      Independence.generator s [u; v] = Ok [Fin gu; Fin gv] /\ gc = gu + gv.
Proof.
  intros Hu Hv. change [[u; v]] with (mat_of_pairs [(u, v)]).
  unfold Independence.cumulative_distribution. rewrite split_pairs.
  cbn [bind fst snd map combine nmul].
  eexists; split; [reflexivity|].
  unfold Independence.generator. cbn [map].
  rewrite !nlog_pos by nra.
  do 3 eexists; split; [reflexivity|]; split; [reflexivity|].
  apply ln_mult; lra.
Qed.

Lemma independence_archimedean_witness :
  exists c, Independence.cumulative_distribution unfitted [[1/2; 3]] = Ok [Fin c] /\
    exists gc gu gv, Independence.generator unfitted [c] = Ok [Fin gc] /\
      Independence.generator unfitted [1/2; 3] = Ok [Fin gu; Fin gv] /\ gc = gu + gv.
Proof. apply independence_archimedean; lra. Defined.

(** [Independence.probability_density] on rows of width 2 returns one
    finite value per row, in (0, 1/(2 pi)]: the standard bivariate normal
    density, largest at the origin. *)
Theorem independence_pdf_bounds (s : copula) (X : matrix) :
  Forall (fun row => length row = 2%nat) X ->
  exists out, Independence.probability_density s X = Ok out /\
    length out = length X /\
    Forall (fun r => exists p, r = Fin p /\ 0 < p <= / (2 * PI)) out.
Proof.
  intros HX. unfold Independence.probability_density.
  replace (forallb (fun row => Nat.eqb (length row) 2) X) with true.
  2:{ symmetry. apply forallb_forall. intros row Hr.
      rewrite Forall_forall in HX. rewrite (HX row Hr). reflexivity. }
  eexists; split; [reflexivity|]. split; [apply length_map|].
  apply Forall_map, Forall_forall. intros row _.
  eexists; split; [reflexivity|].
  set (u := nth 0 row 0). set (v := nth 1 row 0).
  pose proof PI_RGT_0.
  assert (0 < exp (- (u * u + v * v) / 2) <= 1).
  { split; [apply exp_pos|]. rewrite <- exp_0. apply exp_le_mono. nra. }
  split.
  - apply Rdiv_lt_0_compat; lra.
  - unfold Rdiv. rewrite <- (Rmult_1_l (/ (2 * PI))) at 2.
    apply Rmult_le_compat_r; [left; apply Rinv_0_lt_compat|]; lra.
Qed.

Lemma independence_pdf_bounds_witness :
  exists out, Independence.probability_density unfitted [[0; 0]; [1; -2]] = Ok out /\
    length out = length [[0; 0]; [1; -2]] /\
    Forall (fun r => exists p, r = Fin p /\ 0 < p <= / (2 * PI)) out.
Proof. apply independence_pdf_bounds. repeat constructor. Defined.

(** ** Clayton: partial derivative, percent point and density *)

Lemma clayton_pd_real th u v : 0 < th -> 0 < u <= 1 -> 0 < v <= 1 ->
  0 < Rpower v (- th) + Rpower u (- th) + Ropp 1 /\
  0 < Rpower v (- th - 1) * Rpower (Rpower v (- th) + Rpower u (- th) + Ropp 1) ((-1 - th) / th) <= 1.
Proof.
  intros Hth Hu Hv.
  assert (Hu1 : 1 <= Rpower u (- th)) by (apply Rpower_ge1; lra).
  pose proof (Rpower_pos v (- th)) as Hv0.
  assert (HB : 0 < Rpower v (- th) + Rpower u (- th) + Ropp 1) by lra.
  split; [exact HB|]. split.
  - apply Rmult_lt_0_compat; apply Rpower_pos.
  - assert (He : (-1 - th) / th <= 0).
    { unfold Rdiv. assert (0 < / th) by (apply Rinv_0_lt_compat; lra). nra. }
    assert (Hle : Rpower (Rpower v (- th) + Rpower u (- th) + Ropp 1) ((-1 - th) / th)
                  <= Rpower (Rpower v (- th)) ((-1 - th) / th))
      by (apply Rpower_anti; lra).
    rewrite Rpower_mult in Hle.
    replace (- th * ((-1 - th) / th)) with (1 + th) in Hle by (field; lra).
    apply Rle_trans with (Rpower v (- th - 1) * Rpower v (1 + th)).
    + apply Rmult_le_compat_l; [left; apply Rpower_pos | exact Hle].
    + rewrite <- Rpower_plus. replace (- th - 1 + (1 + th)) with 0 by ring.
      rewrite Rpower_O by lra. lra.
Qed.

Lemma clayton_pd_entry_pos th u v y : 0 < th -> 0 < u <= 1 -> 0 < v <= 1 ->
  Clayton.pd_entry th u v y =
  Fin (Rpower v (- th - 1) * Rpower (Rpower v (- th) + Rpower u (- th) + Ropp 1) ((-1 - th) / th) + - y).
Proof.
  intros Hth Hu Hv. destruct (clayton_pd_real th u v Hth Hu Hv) as [HB _].
  unfold Clayton.pd_entry. rewrite !npow_pos by lra.
  cbn [nsub nadd nneg]. rewrite ndiv_fin by lra. rewrite npow_pos by exact HB.
  reflexivity.
Qed.

(** [Clayton.partial_derivative] with theta > 0, on pairs in (0,1]^2 and
    with offset y, returns per row a finite value p - y where the
    conditional probability p lies in (0, 1]. *)
Theorem clayton_pd_range (s : copula) (P : list (R * R)) (y : R) :
  fitted s = true -> 0 < theta s ->
  Forall (fun '(u, v) => 0 < u <= 1 /\ 0 < v <= 1) P ->
  exists out, Clayton.partial_derivative s (mat_of_pairs P) y = Ok out /\
    Forall2 (fun _ r => exists p, r = Fin (p - y) /\ 0 < p <= 1) P out.
Proof.
  intros Hf Hth Hin. unfold Clayton.partial_derivative, check_fit.
  rewrite Hf, split_pairs. cbn [bind]. rewrite Reqb_false by lra.
  rewrite combine_fst_snd. eexists; split; [reflexivity|].
  apply Forall2_map_r. eapply Forall_impl; [|exact Hin]. intros [u v] [Hu Hv].
  rewrite clayton_pd_entry_pos by lra. eexists; split; [reflexivity|].
  apply clayton_pd_real; lra.
Qed.

Lemma clayton_pd_range_witness :
  exists out, Clayton.partial_derivative (mk_copula 2 0 true)
      (mat_of_pairs [(1/2, 1/2); (1, 1/4)]) (1/3) = Ok out /\
    Forall2 (fun _ r => exists p, r = Fin (p - 1/3) /\ 0 < p <= 1)
      [(1/2, 1/2); (1, 1/4)] out.
Proof.
  apply (clayton_pd_range (mk_copula 2 0 true)); simpl; try lra; try reflexivity.
  repeat constructor; lra.
Defined.

Lemma clayton_pp_inverse_real th u v : 0 < th -> 0 < u <= 1 -> 0 < v <= 1 ->
  let y := Rpower v (- th - 1) * Rpower (Rpower v (- th) + Rpower u (- th) + Ropp 1) ((-1 - th) / th) in
  Rpower y (th / (-1 - th)) + Rpower v th + Ropp 1 = Rpower v th * Rpower u (- th) /\
  Rpower (Rpower v th * Rpower u (- th) / Rpower v th) (-1 / th) = u.
Proof.
  intros Hth Hu Hv. cbv zeta.
  destruct (clayton_pd_real th u v Hth Hu Hv) as [HB _].
  remember (Rpower v (- th) + Rpower u (- th) + Ropp 1) as B eqn:HBdef.
  assert (Hvv : Rpower v th * Rpower v (- th) = 1).
  { rewrite <- Rpower_plus. replace (th + - th) with 0 by ring. apply Rpower_O. lra. }
  pose proof (Rpower_pos v th). split.
  - unfold Rpower at 1.
    rewrite ln_mult by apply Rpower_pos. rewrite !ln_Rpower.
    replace (th / (-1 - th) * ((- th - 1) * ln v + (-1 - th) / th * ln B))
      with (th * ln v + ln B) by (field; lra).
    rewrite exp_plus, exp_ln by exact HB. fold (Rpower v th).
    rewrite HBdef. rewrite Rmult_plus_distr_l, Rmult_plus_distr_l, Hvv. ring.
  - replace (Rpower v th * Rpower u (- th) / Rpower v th) with (Rpower u (- th)) by (field; lra).
    rewrite Rpower_mult. replace (- th * (-1 / th)) with 1 by (field; lra).
    apply Rpower_1. lra.
Qed.

(** The round trip in the other direction: for Clayton with theta > 0 and
    (u, v) in (0,1]^2, partial_derivative([[u, v]], 0) is a single y in
    (0, 1], and percent_point([y], [v]) gives back exactly [u]. *)
Theorem clayton_pd_pp_roundtrip (s : copula) (u v : R) :
  fitted s = true -> 0 < theta s -> 0 < u <= 1 -> 0 < v <= 1 ->
  exists y, Clayton.partial_derivative s [[u; v]] 0 = Ok [Fin y] /\ 0 < y <= 1 /\
    Clayton.percent_point s [y] [v] = Ok [Fin u].
Proof.
  intros Hf Hth Hu Hv.
  destruct (clayton_pd_real (theta s) u v Hth Hu Hv) as [HB Hy].
  destruct (clayton_pp_inverse_real (theta s) u v Hth Hu Hv) as [Hnum Hinv].
  cbv zeta in Hnum, Hinv.
  eexists. split; [|split; [exact Hy|]].
  - unfold Clayton.partial_derivative, check_fit. rewrite Hf. cbn [bind].
    change [[u; v]] with (mat_of_pairs [(u, v)]). rewrite split_pairs.
    cbn [bind map fst snd combine]. rewrite Reqb_false by lra.
    rewrite clayton_pd_entry_pos by lra. rewrite Ropp_0, Rplus_0_r. reflexivity.
  - unfold Clayton.percent_point, check_fit. rewrite Hf. cbn [bind].
    rewrite Rltb_false by lra. unfold broadcast2. cbn [length Nat.eqb combine bind map].
    rewrite ndiv_fin by lra. rewrite !npow_pos by lra.
    cbn [nsub nadd nneg]. rewrite Hnum.
    rewrite ndiv_fin by (apply Rgt_not_eq, Rpower_pos).
    rewrite ndiv_fin by lra. rewrite npow_pos.
    + now rewrite Hinv.
    + apply Rdiv_lt_0_compat; apply Rmult_lt_0_compat || apply Rpower_pos; apply Rpower_pos.
Qed.

Lemma clayton_pd_pp_roundtrip_witness :
  exists y, Clayton.partial_derivative (mk_copula 2 0 true) [[1/2; 1/4]] 0 = Ok [Fin y] /\
    0 < y <= 1 /\ Clayton.percent_point (mk_copula 2 0 true) [y] [1/4] = Ok [Fin (1/2)].
Proof. apply (clayton_pd_pp_roundtrip (mk_copula 2 0 true)); simpl; try reflexivity; lra. Defined.

(** [Clayton.probability_density] with theta > 0 is finite and strictly
    positive on every row in (0,1]^2. *)
Theorem clayton_pdf_positive (s : copula) (P : list (R * R)) :
  fitted s = true -> 0 < theta s ->
  Forall (fun '(u, v) => 0 < u <= 1 /\ 0 < v <= 1) P ->
  exists out, Clayton.probability_density s (mat_of_pairs P) = Ok out /\
    length out = length P /\ Forall (fun r => exists d, r = Fin d /\ 0 < d) out.
Proof.
  intros Hf Hth Hin. unfold Clayton.probability_density, check_fit.
  rewrite Hf, split_pairs. cbn [bind]. rewrite combine_fst_snd.
  eexists; split; [reflexivity|]. split; [apply length_map|].
  apply Forall_map. eapply Forall_impl; [|exact Hin]. intros [u v] [Hu Hv].
  assert (Hu1 : 1 <= Rpower u (- theta s)) by (apply Rpower_ge1; lra).
  pose proof (Rpower_pos v (- theta s)).
  cbn [nmul]. rewrite !npow_pos by nra. cbn [nmul nsub nadd nneg].
  rewrite ndiv_fin by lra. rewrite npow_pos by lra. cbn [nmul].
  eexists; split; [reflexivity|].
  apply Rmult_lt_0_compat; [apply Rmult_lt_0_compat; [lra|]|]; apply Rpower_pos.
Qed.

Lemma clayton_pdf_positive_witness :
  exists out, Clayton.probability_density (mk_copula 2 0 true)
      (mat_of_pairs [(1/2, 1/2); (1, 1/4)]) = Ok out /\
    length out = length [(1/2, 1/2); (1, 1/4)] /\
    Forall (fun r => exists d, r = Fin d /\ 0 < d) out.
Proof.
  apply (clayton_pdf_positive (mk_copula 2 0 true)); simpl; try lra; try reflexivity.
  repeat constructor; lra.
Defined.

(** ** Gumbel: partial derivative *)

Lemma combine_map_self {A B} (f : A -> B) (l : list A) :
  combine (map f l) l = map (fun x => (f x, x)) l.
Proof. induction l as [|x l IH]; simpl; congruence. Qed.

Lemma gumbel_pd_real th a b : 1 < th -> 0 < a -> 0 < b ->
  let T := Rpower a th + Rpower b th in
  0 < exp (- Rpower T (1 / th)) * Rpower T (-1 + 1 / th) * Rpower b (th - 1) * exp b <= 1.
Proof.
  intros Hth Ha Hb. cbv zeta.
  pose proof (Rpower_pos a th). pose proof (Rpower_pos b th).
  set (T := Rpower a th + Rpower b th).
  assert (HT : 0 < T) by (unfold T; lra).
  set (S := Rpower T (1 / th)).
  assert (HS : 0 < S) by apply Rpower_pos.
  assert (HbS : b <= S).
  { unfold S. rewrite <- (Rpower_1 b) at 1 by lra.
    replace 1 with (th * (1 / th)) at 1 by (field; lra). rewrite <- Rpower_mult.
    apply Rpower_mono; [apply Rpower_pos | unfold T; lra |].
    left; apply Rdiv_lt_0_compat; lra. }
  assert (HTS : Rpower T (-1 + 1 / th) = Rpower S (1 - th)).
  { unfold S. rewrite Rpower_mult. f_equal. field. lra. }
  rewrite HTS. split.
  - repeat apply Rmult_lt_0_compat; apply exp_pos || apply Rpower_pos.
  - assert (H1 : exp (- S) * exp b <= 1).
    { rewrite <- exp_plus, <- exp_0. apply exp_le_mono. lra. }
    assert (H2 : Rpower S (1 - th) * Rpower b (th - 1) <= 1).
    { apply Rle_trans with (Rpower S (1 - th) * Rpower S (th - 1)).
      - apply Rmult_le_compat_l; [left; apply Rpower_pos|].
        apply Rpower_mono; lra.
      - rewrite <- Rpower_plus. replace (1 - th + (th - 1)) with 0 by ring.
        rewrite Rpower_O by lra. lra. }
    pose proof (exp_pos (- S)). pose proof (exp_pos b).
    pose proof (Rpower_pos S (1 - th)). pose proof (Rpower_pos b (th - 1)).
    replace (exp (- S) * Rpower S (1 - th) * Rpower b (th - 1) * exp b)
      with ((exp (- S) * exp b) * (Rpower S (1 - th) * Rpower b (th - 1))) by ring.
    assert (0 < exp (- S) * exp b) by (apply Rmult_lt_0_compat; lra).
    assert (0 < Rpower S (1 - th) * Rpower b (th - 1)) by (apply Rmult_lt_0_compat; lra).
    nra.
Qed.

Lemma gumbel_cdf_eval (s : copula) (P : list (R * R)) :
  fitted s = true -> theta s <> 1 ->
  Gumbel.cumulative_distribution s (mat_of_pairs P) =
  Ok (map (fun '(u, v) => Gumbel.cdf_entry (theta s) u v) P).
Proof.
  intros Hf Hth. unfold Gumbel.cumulative_distribution, check_fit.
  rewrite Hf, split_pairs. cbn [bind]. rewrite Reqb_false by exact Hth.
  now rewrite combine_fst_snd.
Qed.

Lemma neg_ln_pos t : 0 < t < 1 -> 0 < - ln t.
Proof.
  intros Ht. assert (ln t < ln 1) by (apply ln_increasing; lra). rewrite ln_1 in H. lra.
Qed.

(** [Gumbel.partial_derivative] with theta > 1, on pairs in (0,1)^2 and
    with offset y, returns per row a finite value p - y where the
    conditional probability p lies in (0, 1]. *)
Theorem gumbel_pd_range (s : copula) (P : list (R * R)) (y : R) :
  fitted s = true -> 1 < theta s ->
  Forall (fun '(u, v) => 0 < u < 1 /\ 0 < v < 1) P ->
  exists out, Gumbel.partial_derivative s (mat_of_pairs P) y = Ok out /\
    Forall2 (fun _ r => exists p, r = Fin (p - y) /\ 0 < p <= 1) P out.
Proof.
  intros Hf Hth Hin. unfold Gumbel.partial_derivative.
  rewrite gumbel_cdf_eval by (exact Hf || lra). unfold check_fit.
  rewrite Hf, split_pairs. cbn [bind]. rewrite Reqb_false by lra.
  rewrite combine_fst_snd, combine_map_self, map_map.
  eexists; split; [reflexivity|].
  apply Forall2_map_r. eapply Forall_impl; [|exact Hin]. intros [u v] [Hu Hv].
  pose proof (neg_ln_pos u Hu) as Ha. pose proof (neg_ln_pos v Hv) as Hb.
  rewrite gumbel_entry_pos by lra. rewrite !gumbel_term_pos by lra.
  rewrite (pw_pos (- ln u)), (pw_pos (- ln v)) by lra.
  pose proof (Rpower_pos (- ln u) (theta s)). pose proof (Rpower_pos (- ln v) (theta s)).
  rewrite pw_pos by lra.
  cbn [nadd]. rewrite ndiv_fin by lra. cbn [nadd].
  rewrite npow_pos by lra. rewrite (pw_pos (- ln v) (theta s - 1)) by lra. cbn [nmul]. rewrite ndiv_fin by lra. cbn [nsub nadd nneg].
  eexists; split; [reflexivity|].
  pose proof (gumbel_pd_real (theta s) (- ln u) (- ln v) Hth Ha Hb) as Hr. cbv zeta in Hr.
  rewrite (exp_Ropp (ln v)), exp_ln in Hr by lra.
  unfold Rdiv in *. exact Hr.
Qed.

Lemma gumbel_pd_range_witness :
  exists out, Gumbel.partial_derivative (mk_copula 2 0 true)
      (mat_of_pairs [(1/2, 1/2); (1/4, 3/4)]) (1/3) = Ok out /\
    Forall2 (fun _ r => exists p, r = Fin (p - 1/3) /\ 0 < p <= 1)
      [(1/2, 1/2); (1/4, 3/4)] out.
Proof.
  apply (gumbel_pd_range (mk_copula 2 0 true)); simpl; try lra; try reflexivity.
  repeat constructor; lra.
Defined.

(** ** Monotonicity of the cumulative distributions *)

(** [Clayton.cumulative_distribution] with theta > 0 is nondecreasing in
    the first column: at rows (u1, v) and (u2, v) of one input, with
    0 <= u1 <= u2 <= 1 and v in [0,1], the first value is at most the
    second. *)
Theorem clayton_cdf_monotone (s : copula) (u1 u2 v : R) :
  fitted s = true -> 0 < theta s -> 0 <= u1 <= u2 -> u2 <= 1 -> 0 <= v <= 1 ->
  exists c1 c2, Clayton.cumulative_distribution s [[u1; v]; [u2; v]] = Ok [Fin c1; Fin c2] /\
    c1 <= c2.
Proof.
  intros Hf Hth Hu Hu2 Hv.
  change [[u1; v]; [u2; v]] with (mat_of_pairs [(u1, v); (u2, v)]).
  rewrite clayton_cdf_map by exact Hf. cbn [map].
  destruct (Req_dec v 0) as [->|Hv0].
  { rewrite !clayton_entry_zero by (right; reflexivity). exists 0, 0. split; [reflexivity|lra]. }
  destruct (Req_dec u1 0) as [->|Hu0].
  { rewrite (clayton_entry_zero _ 0 v) by (left; reflexivity).
    destruct (Req_dec u2 0) as [->|Hu20].
    - rewrite clayton_entry_zero by (left; reflexivity).
      exists 0, 0. split; [reflexivity|lra].
    - rewrite clayton_entry_pos by lra. do 2 eexists. split; [reflexivity|].
      left; apply Rpower_pos. }
  rewrite !clayton_entry_pos by lra. do 2 eexists. split; [reflexivity|].
  assert (1 <= Rpower u2 (- theta s)) by (apply Rpower_ge1; lra).
  assert (Rpower u2 (- theta s) <= Rpower u1 (- theta s)) by (apply Rpower_anti; lra).
  pose proof (Rpower_pos v (- theta s)).
  apply Rpower_anti; [lra | lra |].
  unfold Rdiv. assert (0 < / theta s) by (apply Rinv_0_lt_compat; lra). lra.
Qed.

Lemma clayton_cdf_monotone_witness :
  exists c1 c2, Clayton.cumulative_distribution (mk_copula 2 0 true)
      [[1/4; 1/2]; [3/4; 1/2]] = Ok [Fin c1; Fin c2] /\ c1 <= c2.
Proof. apply (clayton_cdf_monotone (mk_copula 2 0 true)); simpl; try reflexivity; lra. Defined.

(** [Gumbel.cumulative_distribution] with theta >= 1 is nondecreasing in
    the first column: at rows (u1, v) and (u2, v) of one input, with
    0 <= u1 <= u2 <= 1 and v in [0,1], the first value is at most the
    second. *)
Theorem gumbel_cdf_monotone (s : copula) (u1 u2 v : R) :
  fitted s = true -> 1 <= theta s -> 0 <= u1 <= u2 -> u2 <= 1 -> 0 <= v <= 1 ->
  exists c1 c2, Gumbel.cumulative_distribution s [[u1; v]; [u2; v]] = Ok [Fin c1; Fin c2] /\
    c1 <= c2.
Proof.
  intros Hf Hth Hu Hu2 Hv.
  change [[u1; v]; [u2; v]] with (mat_of_pairs [(u1, v); (u2, v)]).
  unfold Gumbel.cumulative_distribution, check_fit. rewrite Hf, split_pairs.
  cbn [bind map fst snd combine].
  destruct (Reqb (theta s) 1) eqn:E.
  { cbn [map nmul]. do 2 eexists. split; [reflexivity|]. nra. }
  assert (1 < theta s).
  { destruct Hth as [Hlt|Heq]; [exact Hlt|].
    rewrite Reqb_true in E by (symmetry; exact Heq). discriminate. }
  cbn [map].
  destruct (Req_dec v 0) as [->|Hv0].
  { rewrite !(gumbel_cdf_entry_sym _ _ 0), !gumbel_entry_zero by lra.
    exists 0, 0. split; [reflexivity|lra]. }
  destruct (Req_dec u1 0) as [->|Hu0].
  { rewrite gumbel_entry_zero by lra.
    destruct (Req_dec u2 0) as [->|Hu20].
    - rewrite gumbel_entry_zero by lra. exists 0, 0. split; [reflexivity|lra].
    - rewrite gumbel_entry_pos by lra. do 2 eexists. split; [reflexivity|].
      left; apply exp_pos. }
  rewrite !gumbel_entry_pos by lra. do 2 eexists. split; [reflexivity|].
  apply exp_le_mono, Ropp_le_contravar.
  assert (0 <= - ln u2) by (apply neg_ln_nonneg; lra).
  assert (- ln u2 <= - ln u1) by (apply Ropp_le_contravar, ln_le_mono; lra).
  assert (pw (- ln u2) (theta s) <= pw (- ln u1) (theta s)) by (apply pw_mono; lra).
  pose proof (pw_nonneg (- ln u2) (theta s)). pose proof (pw_nonneg (- ln v) (theta s)).
  apply pw_mono; [lra|]. apply Rdiv_lt_0_compat; lra.
Qed.

Lemma gumbel_cdf_monotone_witness :
  exists c1 c2, Gumbel.cumulative_distribution (mk_copula 2 0 true)
      [[1/4; 1/2]; [3/4; 1/2]] = Ok [Fin c1; Fin c2] /\ c1 <= c2.
Proof. apply (gumbel_cdf_monotone (mk_copula 2 0 true)); simpl; try reflexivity; lra. Defined.

(** [Gumbel.probability_density] with theta > 1 is finite and strictly
    positive on every row in (0,1)^2. *)
Theorem gumbel_pdf_positive (s : copula) (P : list (R * R)) :
  fitted s = true -> 1 < theta s ->
  Forall (fun '(u, v) => 0 < u < 1 /\ 0 < v < 1) P ->
  exists out, Gumbel.probability_density s (mat_of_pairs P) = Ok out /\
    length out = length P /\ Forall (fun r => exists d, r = Fin d /\ 0 < d) out.
Proof.
  intros Hf Hth Hin. unfold Gumbel.probability_density.
  rewrite gumbel_cdf_eval by (exact Hf || lra). unfold check_fit.
  rewrite Hf, split_pairs. cbn [bind]. rewrite Reqb_false by lra.
  rewrite combine_fst_snd, combine_map_self, map_map.
  eexists; split; [reflexivity|]. split; [apply length_map|].
  apply Forall_map. eapply Forall_impl; [|exact Hin]. intros [u v] [Hu Hv].
  pose proof (neg_ln_pos u Hu) as Ha. pose proof (neg_ln_pos v Hv) as Hb.
  rewrite gumbel_entry_pos by lra. rewrite !gumbel_term_pos by lra.
  rewrite (pw_pos (- ln u)), (pw_pos (- ln v)) by lra.
  pose proof (Rpower_pos (- ln u) (theta s)). pose proof (Rpower_pos (- ln v) (theta s)).
  rewrite pw_pos by lra.
  rewrite !nlog_pos by lra. cbn [nmul nadd].
  rewrite !ndiv_fin by lra. cbn [nadd].
  rewrite !npow_pos by nra. cbn [nmul nadd].
  eexists; split; [reflexivity|].
  assert (0 < (theta s - 1) * Rpower (Rpower (- ln u) (theta s) + Rpower (- ln v) (theta s)) (-1 / theta s))
    by (apply Rmult_lt_0_compat; [lra | apply Rpower_pos]).
  repeat apply Rmult_lt_0_compat; try apply exp_pos; try apply Rpower_pos; lra.
Qed.

Lemma gumbel_pdf_positive_witness :
  exists out, Gumbel.probability_density (mk_copula 2 0 true)
      (mat_of_pairs [(1/2, 1/2); (1/4, 3/4)]) = Ok out /\
    length out = length [(1/2, 1/2); (1/4, 3/4)] /\
    Forall (fun r => exists d, r = Fin d /\ 0 < d) out.
Proof.
  apply (gumbel_pdf_positive (mk_copula 2 0 true)); simpl; try lra; try reflexivity.
  repeat constructor; lra.
Defined.

(** [Independence.fit] does not mark the instance as fitted, so on an
    instance that was not fitted, [percent_point] after [fit] still fails
    with [UnfittedModelError], whatever the data. *)
Theorem independence_fit_then_percent_point (s : copula) (X : matrix) (y V : list R) :
  fitted s = false ->
  (let* s' := Independence.fit s X in Independence.percent_point s' y V) =
  Err UnfittedModelError.
Proof.
  intros Hf. unfold Independence.fit, Independence.percent_point, check_fit.
  cbn [bind]. now rewrite Hf.
Qed.

Lemma independence_fit_then_percent_point_witness :
  (let* s' := Independence.fit unfitted [[1/2; 1/2]] in
   Independence.percent_point s' [1/2] [1/2]) = Err UnfittedModelError.
Proof. apply independence_fit_then_percent_point. reflexivity. Defined.
